(* ===== verification/_CoqProject ===== *)
-Q . S2P
Prelude.v
JsValue.v
Private.v
Json.v
Inspect.v
Zod.v
Query.v
Concurrency.v
Middleware.v
