(* ===== verification/Prelude.v ===== *)
(** * A verification development of leakless-poc

    The repository is one TypeScript module,
    [src/src/routes/_index/+middleware.ts] (101 lines).  It has three parts
    that call one another in this order:

    - the privacy wrapper, [makePrivateValue] (lines 7-29): it reads
      [value.constructor], declares a fresh [class PrivateValue extends
      Constructor] that overrides [toJSON] (returns [undefined]), the
      [util.inspect] hook (renders [Private<...>]) and a method named
      [Symbol.toStringTag], and returns [new PrivateValue(...value)] for
      arrays and [new PrivateValue(value)] otherwise;
    - the schema decorator [makePrivate] (lines 32-39), a zod [.transform]
      that leaves [undefined] alone and wraps every other parsed value,
      with the record schema [UserSchema] (lines 47-51) that uses it;
    - the lazy query [DatabaseQuery] (lines 53-85), a thenable whose
      [then] calls [fetch()], which reads the module constant [data]
      (lines 41-45) and parses it with the attached schema when that is a
      zod schema; [db.file] (lines 88-92) builds one, and the default
      export (lines 95-101) is the middleware that awaits
      [db.file(..).into(UserSchema)], stores the result in the request
      context, logs [result.super_secret_property == false] and calls
      [next()].

    ** Files and what they model

    - [Prelude] (this file): the state-and-exception monad [St] with its
      notation in [js_scope], the hint database [js], shared tactics
      ([run_step] runs the first computation of a [bind]), and the
      generic facts on lists and on reflexive-transitive closures the
      components share.
    - [JsValue]: the fragment of JavaScript the module runs on: primitive
      values, heap objects with their constructor chain, internal data
      slot and own properties, the program state (heap and an event
      trace), allocation and property access, [ToBoolean], [ToPrimitive],
      the loose equality [==], the well-formedness invariant of heaps,
      and the footprint predicate [quiet] (a computation that emits no
      event), with hints that prove it compositionally.
    - [Private]: [makePrivateValue] and the transform of [makePrivate],
      with the behaviour of [new PrivateValue(..)] for each built-in
      constructor it can extend ([Object], [Array], [Boolean], [Number],
      [String]).
    - [Json]: [JSON.stringify] as far as the module's values reach it
      (the [toJSON] hook, unwrapping of [Boolean]/[Number]/[String]
      objects, omission of [undefined] members, cycle detection).
    - [Inspect]: the two debugging hooks of [PrivateValue]: the
      [util.inspect] hook ([this.valueOf()] rendered with ANSI colours),
      with the depth of the call stack as fuel, and the
      [Symbol.toStringTag] method, with [Object.prototype.toString].
    - [Zod]: the zod schemas the module builds (string, number, boolean,
      object, transform) and their synchronous [parse], issues included.
    - [Query]: [DatabaseQuery], [db.file], [into], [fetch] (split at its
      [await] into [fetch_start] and [fetch_resume]), [then], the
      thenable interface [Thenable] (the class [await] is written against)
      and [spec_resolve], the memoised query of the specification.
    - [Concurrency]: concurrent [await]s of one query as a step relation
      [cstep] on configurations (the phase of each await and the shared
      state): each await's [then] job, the resumption of its [fetch] and
      its callback are separate steps that any interleaving may order;
      [step_task] and [run_schedule] are the executable form.
    - [Middleware]: module initialisation and the default export.

    The components call one another as the code does: [Middleware] uses
    [db_file], [into] and [await_query] of [Query]; [fetch] uses
    [zod_parse] of [Zod], whose [makePrivate] transform calls
    [makePrivateValue] of [Private]; [Json] and [Inspect] read the objects
    [Private] allocates.  [Thenable] is the interface between [await] and
    a query; [quiet] is the footprint contract every component but the
    two event sources ([fetch_start], [console_log]) satisfies.

    ** What the theorems show

    - Private: for every kind of input, what [makePrivateValue] returns
      or throws (primitives keep their loose equality; a second wrapping
      turns any boolean into [true] and keeps numbers and strings;
      arrays keep their elements except a single number [n], which
      becomes [n] holes or a [RangeError]; plain objects lose every
      property; objects with an own [constructor] throw), and type
      safety: on a well-formed heap it never leaves the modelled
      fragment, only allocates, and keeps the heap well-formed.
    - Json: a wrapped value serializes as absent at every depth; an
      object serializes as its non-private members, unchanged and in
      order.
    - Inspect: [valueOf] of a wrapped primitive gives it back; a wrapped
      primitive prints as [Private<..>] around its coloured rendering; a
      wrapped object or array recurses through its own hook until the
      stack overflows; a boolean wrapped twice prints [Private<true>];
      [Object.prototype.toString] never reports [Private].
    - Zod: [UserSchema.parse(data)] succeeds and serializes as
      [{"name":"John Doe","age":42}] with the secret still [== false];
      an invalid [age] is the only issue reported; a parsed record does
      not parse again; [makePrivate] around a record empties it; on
      every input, [UserSchema.parse] refines the [validate] of section
      4.2 of the specification (the same issues, or a fresh record whose
      fields correspond); flat record schemas strip unknown keys and
      report all issues; parsing emits no event.
    - Query: every [await] of a query runs [fetch] again, so [n] awaits
      fetch [n] times where the memoised query of the specification
      fetches once.
    - Concurrency: for every interleaving of [n] awaits of one query,
      [fetch] runs once per started await and [n] times once all have
      resumed (no coalescing), and concurrent [UserSchema] awaits get
      distinct records.
    - Middleware: the whole default export on any request whose context
      has an object [serializedGlobals] (the exact final heap and trace,
      then [next]), and on any request whose context lacks it (the
      [TypeError] of line 99, thrown after the fetch, the store and the
      log, which remain, and before [next]).

    ** Bounds and fuel

    JavaScript numbers are modelled as integers [Z]; the array-length
    bound of [new Array(n)] is the 32-bit one, [0 <= n < 2^32].  Recursive
    traversals of the heap ([JSON.stringify], [util.inspect]) take fuel.
    For [JSON.stringify] the fuel [S (length heap)] is enough on a
    well-formed heap (lemma [json_stringify_total] of [Json]): the cycle
    check keeps the stack of visited objects duplicate-free, so it never
    holds more than [length heap] objects.  The theorems on
    [JSON.stringify] hold for every fuel.  For [util.inspect] fuel
    stands for the call stack: running out of it is the [RangeError] the
    engine raises, which is the behaviour the theorem on wrapped objects
    states.  The concurrency model needs no fuel: it is a relation, and
    [run_schedule] follows a finite schedule.

    ** Not modelled

    Floating-point numbers ([NaN], fractions), symbols, functions,
    getters and the prototype chain beyond the [constructor] property, the
    character-level JSON text, the string rendering of [util.inspect]
    beyond the fragment the hook reaches (escaping of control characters,
    the splitting of long strings over several lines, the truncation of
    long arrays, strings and objects and the [breakLength] line layout:
    library code of Node.js, not of the repository), the type
    declarations of lines 1-6 (erased at run time), the identity of query
    objects (no code reads them after construction, and the parameter
    object [into] shares is never mutated), and the host framework that
    calls the middleware (it is a parameter). *)

From stdpp Require Export base list strings sets relations.
From Stdlib Require Export ZArith.

(** The results of a computation: a value, a thrown exception, or
    [RStuck] when the computation leaves the fragment of the language that
    is modelled (the well-formedness theorems show it never does). *)
Inductive res (E A : Type) : Type :=
  | ROk (a : A)
  | RThrow (e : E)
  | RStuck.
Arguments ROk {E A} a.
Arguments RThrow {E A} e.
Arguments RStuck {E A}.

(** State passing with exceptions: the state after an exception keeps the
    effects done before it, as in JavaScript. *)
Definition St (S E A : Type) : Type := S -> S * res E A.

Section Monad.
  Context {S E : Type}.

Definition ret {A} (a : A) : St S E A := fun s => (s, ROk a).
Definition throw {A} (e : E) : St S E A := fun s => (s, RThrow e).
Definition stuck {A} : St S E A := fun s => (s, RStuck).
Definition bind {A B} (c : St S E A) (k : A -> St S E B) : St S E B :=
    fun s => match c s with
             | (s', ROk a) => k a s'
             | (s', RThrow e) => (s', RThrow e)
             | (s', RStuck) => (s', RStuck)
             end.
Definition get_state : St S E S := fun s => (s, ROk s).
  (** [handle c ok err] continues with [ok] on a value and with [err] on
    an exception: the two callbacks of a promise's [then]. *)
Definition handle {A B} (c : St S E A) (ok : A -> St S E B) (err : E -> St S E B)
  : St S E B :=
  fun s => match c s with
           | (s', ROk a) => ok a s'
           | (s', RThrow e) => err e s'
           | (s', RStuck) => (s', RStuck)
           end.
Definition of_option {A} (o : option A) : St S E A :=
    match o with Some a => ret a | None => stuck end.
End Monad.

Declare Scope js_scope.
Delimit Scope js_scope with js.
Notation "x <- c ;; k" := (bind c (fun x => k))
  (at level 100, c at next level, right associativity) : js_scope.
Notation "c ;; k" := (bind c (fun _ => k))
  (at level 100, right associativity) : js_scope.

Section MonadLaws.
  Context {S E : Type}.

Lemma bind_ret_l {A B} (a : A) (k : A -> St S E B) s :
    bind (ret a) k s = k a s.
  Proof. reflexivity. Qed.

Lemma bind_throw {A B} (e : E) (k : A -> St S E B) s :
    bind (throw e) k s = (s, RThrow e).
  Proof. reflexivity. Qed.

Lemma bind_stuck {A B} (k : A -> St S E B) s :
    bind stuck k s = (s, RStuck).
  Proof. reflexivity. Qed.

Lemma bind_assoc {A B C} (c : St S E A) (f : A -> St S E B)
        (g : B -> St S E C) s :
    bind (bind c f) g s = bind c (fun a => bind (f a) g) s.
  Proof. unfold bind. destruct (c s) as [s' []]; reflexivity. Qed.

Lemma bind_ok {A B} (c : St S E A) (k : A -> St S E B) s s' a :
    c s = (s', ROk a) -> bind c k s = k a s'.
  Proof. unfold bind. by intros ->. Qed.

Lemma bind_err {A B} (c : St S E A) (k : A -> St S E B) s s' e :
    c s = (s', RThrow e) -> bind c k s = (s', RThrow e).
  Proof. unfold bind. by intros ->. Qed.
Lemma bind_inv_ok {A B} (c : St S E A) (k : A -> St S E B) s s' b :
  bind c k s = (s', ROk b) -> exists s1 a, c s = (s1, ROk a) /\ k a s1 = (s', ROk b).
Proof. unfold bind. destruct (c s) as [s1 []]; [eauto|discriminate..]. Qed.
End MonadLaws.

Create HintDb js discriminated.
Create Rewrite HintDb js_run.
#[export] Hint Rewrite @bind_ret_l @bind_throw @bind_stuck @bind_assoc : js_run.

(** [run_ok H] rewrites the first bind of the goal with the equation [H]
    giving the result of its first computation. *)
Ltac run_ok H := first [ rewrite (bind_ok _ _ _ _ _ H) | rewrite (bind_err _ _ _ _ _ H) ].

(** Closes [(s, r) = (s', r') -> s' = s] and the like. *)
Ltac same_state := intros; simpl in *; unfold ret, throw, stuck in *; simplify_eq/=; done.

(** Closes a decidable proposition on closed data by evaluation. *)
Ltac by_decide := apply (bool_decide_unpack _); vm_compute; exact I.

(** Results are not stuck. *)
Definition not_stuck {E A} (r : res E A) : bool :=
  match r with RStuck => false | _ => true end.

(** Generic list facts shared by the components. *)
Lemma lookup_app_last {A} (l : list A) (x : A) :
  (l ++ [x]) !! length l = Some x.
Proof. rewrite lookup_app_r by lia. by rewrite Nat.sub_diag. Qed.

Lemma lookup_app_prefix {A} (l : list A) (x : A) i y :
  l !! i = Some y -> (l ++ [x]) !! i = Some y.
Proof. intros H. by apply lookup_app_l_Some. Qed.
#[export] Hint Resolve lookup_app_prefix : js.

(** Updating one entry of a list changes a sum over it by the
    difference of the two entries. *)
Lemma sum_list_with_insert {A} (f : A -> nat) (l : list A) i x y :
  l !! i = Some x -> sum_list_with f (<[i:=y]> l) + f x = sum_list_with f l + f y.
Proof.
  revert i. induction l as [|a l IH]; intros [|i] Hi; simplify_eq/=; [lia|].
  specialize (IH _ Hi). lia.
Qed.

(** A property preserved by every step holds along every sequence of
    steps (rule induction on the reflexive-transitive closure). *)
Lemma rtc_inv {A} (R : relation A) (P : A -> Prop) x y :
  (forall a b, R a b -> P a -> P b) -> P x -> rtc R x y -> P y.
Proof. intros HR Hx H. induction H; eauto. Qed.

(** [run_step tac] runs the first computation of a [bind] in the goal,
    with [tac] proving what it returns. *)
Ltac run_step tac := erewrite bind_ok; [|tac].
