(* ===== verification/JsValue.v ===== *)
(** * JsValue: the fragment of JavaScript the module runs on

    Values, heap objects and the program state; allocation and property
    access; the conversions [ToBoolean], [ToPrimitive] and the loose
    equality [==] of ECMAScript; the well-formedness invariant of heaps
    and the lemmas that allocation and update preserve it.  These are the
    semantics of the engine, not code of the repository; the components
    that model [src/] are built on them. *)

From S2P Require Import Prelude.
From stdpp Require Import pretty.
Local Open Scope string_scope.
Local Open Scope js_scope.

(** ** Values and objects *)

Definition loc := nat.

Inductive prim : Type :=
  | PUndefined
  | PNull
  | PBool (b : bool)
  | PNum (n : Z)
  | PStr (s : string).

Inductive value : Type :=
  | VPrim (p : prim)
  | VObj (l : loc).

Abbreviation undefined := (VPrim PUndefined).
Abbreviation null := (VPrim PNull).

(** The constructor an object was created by, read through
    [obj.constructor]: a built-in, or a [class PrivateValue extends base]
    declared by one call of [makePrivateValue]. *)
Inductive ctor : Type :=
  | CObject
  | CArray
  | CBoolean
  | CNumber
  | CString
  | CPrivate (base : ctor).

(** The internal slots of an object: an ordinary object, an Array exotic
    object with its elements ([None] is a hole), or a wrapper object with
    its [[BooleanData]], [[NumberData]] or [[StringData]]. *)
Inductive kind : Type :=
  | KOrdinary
  | KArray (elems : list (option value))
  | KBoolean (b : bool)
  | KNumber (n : Z)
  | KString (s : string).

(** Own properties in insertion order. *)
Record obj : Type := mkObj {
  o_ctor : ctor;
  o_kind : kind;
  o_props : list (string * value)
}.

#[export] Instance prim_eq_dec : EqDecision prim.
Proof. solve_decision. Defined.
#[export] Instance value_eq_dec : EqDecision value.
Proof. solve_decision. Defined.
#[export] Instance ctor_eq_dec : EqDecision ctor.
Proof. solve_decision. Defined.
#[export] Instance kind_eq_dec : EqDecision kind.
Proof. solve_decision. Defined.
#[export] Instance obj_eq_dec : EqDecision obj.
Proof. solve_decision. Defined.

(** The built-in constructor at the root of a chain of [extends]. *)
Fixpoint root (c : ctor) : ctor :=
  match c with
  | CPrivate b => root b
  | _ => c
  end.

Definition is_private_ctor (c : ctor) : bool :=
  match c with CPrivate _ => true | _ => false end.

(** A value is an object of a [PrivateValue] class. *)
Definition is_private_value (h : list obj) (v : value) : bool :=
  match v with
  | VObj l => match h !! l with Some o => is_private_ctor (o_ctor o) | None => false end
  | VPrim _ => false
  end.

(** ** Errors, events and state *)

(** A zod issue of code [invalid_type]: the path of the offending field,
    the expected type and the type received. *)
Record zissue : Type := mkIssue {
  i_path : list string;
  i_expected : string;
  i_received : string
}.

Inductive js_error : Type :=
  | TypeError (msg : string)
  | RangeError (msg : string)
  | ZodError (issues : list zissue).

(** The observable trace: a ghost event at each execution of
    [DatabaseQuery.fetch] (with the file name and parameters it was asked
    for) and each line written by [console.log]. *)
Inductive event : Type :=
  | EFetch (file : string) (params : value)
  | ELog (line : string).

Record state : Type := mkState {
  heap : list obj;
  trace : list event
}.

Abbreviation M := (St state js_error).

(** ** Heap operations *)

Definition alloc (o : obj) : M loc :=
  fun s => (mkState (heap s ++ [o]) (trace s), ROk (length (heap s))).

Definition read (l : loc) : M obj :=
  fun s => match heap s !! l with
           | Some o => (s, ROk o)
           | None => (s, RStuck)
           end.

Definition write (l : loc) (o : obj) : M unit :=
  fun s => if decide (l < length (heap s))
           then (mkState (<[l := o]> (heap s)) (trace s), ROk tt)
           else (s, RStuck).

(** The object literal [{}]. *)
Definition new_object : M value :=
  l <- alloc (mkObj CObject KOrdinary []) ;; ret (VObj l).

Definition emit (e : event) : M unit :=
  fun s => (mkState (heap s) (trace s ++ [e]), ROk tt).

(** ** Own properties *)

Fixpoint lookup_prop (ps : list (string * value)) (k : string) : option value :=
  match ps with
  | [] => None
  | (k', v) :: ps' => if String.eqb k k' then Some v else lookup_prop ps' k
  end.

(** [[Set]] on an ordinary object: update the property in place, or add
    it at the end of the insertion order. *)
Fixpoint set_prop_list (ps : list (string * value)) (k : string) (v : value)
  : list (string * value) :=
  match ps with
  | [] => [(k, v)]
  | (k', v') :: ps' =>
      if String.eqb k k' then (k', v) :: ps' else (k', v') :: set_prop_list ps' k v
  end.

Fixpoint delete_prop (ps : list (string * value)) (k : string) : list (string * value) :=
  match ps with
  | [] => []
  | (k', v') :: ps' => if String.eqb k k' then ps' else (k', v') :: delete_prop ps' k
  end.

(** Names a read can find on a prototype: the members of
    [Object.prototype], [length] and [toJSON].  Inherited function values
    are not modelled, so a read of one of these names that misses the own
    properties leaves the fragment. *)
Definition inherited_names : list string :=
  ["constructor"; "toString"; "toLocaleString"; "valueOf"; "hasOwnProperty";
   "isPrototypeOf"; "propertyIsEnumerable"; "__proto__"; "__defineGetter__";
   "__defineSetter__"; "__lookupGetter__"; "__lookupSetter__"; "length"; "toJSON"].

Definition prim_type_name (p : prim) : string :=
  match p with
  | PUndefined => "undefined"
  | PNull => "null"
  | PBool _ => "boolean"
  | PNum _ => "number"
  | PStr _ => "string"
  end.

(** [v[k]] for a string key [k]. *)
Definition get_prop (v : value) (k : string) : M value :=
  match v with
  | VPrim ((PUndefined | PNull) as p) =>
      throw (TypeError ("Cannot read properties of " +:+ prim_type_name p +:+
                        " (reading '" +:+ k +:+ "')"))
  | VPrim _ => stuck
  | VObj l =>
      o <- read l ;;
      match lookup_prop (o_props o) k with
      | Some w => ret w
      | None => if decide (k ∈ inherited_names) then stuck else ret undefined
      end
  end.

(** Assignments that do not create or update an own data property: the
    [__proto__] accessor, and [length] of arrays and strings.  They are
    outside the fragment. *)
Definition setter_name (k : kind) (key : string) : Prop :=
  key = "__proto__" \/
  (key = "length" /\ match k with KArray _ | KString _ => True | _ => False end).

#[export] Instance setter_name_dec k key : Decision (setter_name k key).
Proof. unfold setter_name. destruct k; apply _. Defined.

(** [v[k] = w] in strict-mode code (an ES module). *)
Definition set_prop (v : value) (k : string) (w : value) : M unit :=
  match v with
  | VPrim ((PUndefined | PNull) as p) =>
      throw (TypeError ("Cannot set properties of " +:+ prim_type_name p +:+
                        " (setting '" +:+ k +:+ "')"))
  | VPrim p =>
      throw (TypeError ("Cannot create property '" +:+ k +:+ "' on " +:+ prim_type_name p))
  | VObj l =>
      o <- read l ;;
      if decide (setter_name (o_kind o) k) then stuck
      else write l (mkObj (o_ctor o) (o_kind o) (set_prop_list (o_props o) k w))
  end.

(** ** Conversions *)

Definition typeof (v : value) : string :=
  match v with
  | VPrim PNull => "object"
  | VPrim p => prim_type_name p
  | VObj _ => "object"
  end.

(** ToBoolean: every object is truthy, whatever its data slot holds. *)
Definition to_boolean (v : value) : bool :=
  match v with
  | VPrim PUndefined | VPrim PNull => false
  | VPrim (PBool b) => b
  | VPrim (PNum n) => negb (n =? 0)%Z
  | VPrim (PStr s) => negb (String.eqb s "")
  | VObj _ => true
  end.

Definition to_string_prim (p : prim) : string :=
  match p with
  | PUndefined => "undefined"
  | PNull => "null"
  | PBool true => "true"
  | PBool false => "false"
  | PNum n => pretty n
  | PStr s => s
  end.

(** An element of [Array.prototype.join]: holes, [undefined] and [null]
    give the empty string; nested objects are outside the fragment. *)
Definition join_elem (e : option value) : option string :=
  match e with
  | None | Some (VPrim PUndefined) | Some (VPrim PNull) => Some ""
  | Some (VPrim p) => Some (to_string_prim p)
  | Some (VObj _) => None
  end.

Fixpoint join_comma (es : list (option value)) : option string :=
  match es with
  | [] => Some ""
  | [e] => join_elem e
  | e :: es' =>
      s ← join_elem e; r ← join_comma es'; Some (s +:+ "," +:+ r)
  end.

(** OrdinaryToPrimitive with hint "default" (valueOf, then toString),
    on the objects of the fragment: [PrivateValue] overrides neither. *)
Definition obj_to_primitive (o : obj) : option prim :=
  match o_kind o with
  | KBoolean b => Some (PBool b)
  | KNumber n => Some (PNum n)
  | KString s => Some (PStr s)
  | KOrdinary => Some (PStr "[object Object]")
  | KArray es => PStr <$> join_comma es
  end.

(** IsLooselyEqual on primitives.  [None] marks a comparison between a
    string and a number (or boolean), which needs StringToNumber. *)
Definition loose_eq_prim (x y : prim) : option bool :=
  match x, y with
  | (PUndefined | PNull), (PUndefined | PNull) => Some true
  | (PUndefined | PNull), _ | _, (PUndefined | PNull) => Some false
  | PBool a, PBool b => Some (Bool.eqb a b)
  | PNum a, PNum b => Some (a =? b)%Z
  | PStr a, PStr b => Some (String.eqb a b)
  | PBool a, PNum b => Some (Z.b2z a =? b)%Z
  | PNum a, PBool b => Some (a =? Z.b2z b)%Z
  | _, _ => None
  end.

(** IsLooselyEqual ([x == y]): two objects are equal when they are the
    same object; an object and [null]/[undefined] never are; otherwise the
    object is converted with ToPrimitive. *)
Definition loose_eq (h : list obj) (x y : value) : option bool :=
  match x, y with
  | VPrim a, VPrim b => loose_eq_prim a b
  | VObj l1, VObj l2 => Some (Nat.eqb l1 l2)
  | VObj _, VPrim (PUndefined | PNull) | VPrim (PUndefined | PNull), VObj _ => Some false
  | VObj l, VPrim b => o ← h !! l; a ← obj_to_primitive o; loose_eq_prim a b
  | VPrim a, VObj l => o ← h !! l; b ← obj_to_primitive o; loose_eq_prim a b
  end.

(** [thisNumberValue] and [thisStringValue]: the primitive or the data
    slot of a wrapper object. *)
Definition this_number_value (h : list obj) (v : value) : option Z :=
  match v with
  | VPrim (PNum n) => Some n
  | VObj l => o ← h !! l; match o_kind o with KNumber n => Some n | _ => None end
  | _ => None
  end.

Definition this_string_value (h : list obj) (v : value) : option string :=
  match v with
  | VPrim (PStr s) => Some s
  | VObj l => o ← h !! l; match o_kind o with KString s => Some s | _ => None end
  | _ => None
  end.

(** ** Well-formedness of heaps

    Every reference stored in the heap points into it, and the data slot
    of every object is the one its root constructor creates. *)

Definition value_okb (n : nat) (v : value) : bool :=
  match v with VObj l => Nat.ltb l n | VPrim _ => true end.

Definition kind_fits (c : ctor) (k : kind) : bool :=
  match root c, k with
  | CObject, KOrdinary | CArray, KArray _ | CBoolean, KBoolean _
  | CNumber, KNumber _ | CString, KString _ => true
  | _, _ => false
  end.

Definition elem_okb (n : nat) (e : option value) : bool :=
  match e with Some v => value_okb n v | None => true end.

Definition kind_okb (n : nat) (k : kind) : bool :=
  match k with KArray es => forallb (elem_okb n) es | _ => true end.

Definition obj_okb (n : nat) (o : obj) : bool :=
  kind_fits (o_ctor o) (o_kind o) && kind_okb n (o_kind o)
  && forallb (fun kv => value_okb n kv.2) (o_props o).

Definition heap_okb (h : list obj) : bool := forallb (obj_okb (length h)) h.

Definition state_ok (s : state) : bool := heap_okb (heap s).

Lemma value_okb_mono n m v :
  n <= m -> value_okb n v = true -> value_okb m v = true.
Proof. destruct v; simpl; [done|]. rewrite !Nat.ltb_lt. lia. Qed.

Lemma elem_okb_mono n m e :
  n <= m -> elem_okb n e = true -> elem_okb m e = true.
Proof. destruct e; simpl; [apply value_okb_mono|done]. Qed.

Lemma forallb_mono {A} (f g : A -> bool) l :
  (forall x, f x = true -> g x = true) -> forallb f l = true -> forallb g l = true.
Proof. rewrite !forallb_forall. eauto. Qed.

Lemma kind_okb_mono n m k :
  n <= m -> kind_okb n k = true -> kind_okb m k = true.
Proof. intros Hle. destruct k; try done. apply forallb_mono. eauto using elem_okb_mono. Qed.

Lemma obj_okb_mono n m o :
  n <= m -> obj_okb n o = true -> obj_okb m o = true.
Proof.
  intros Hle. unfold obj_okb. rewrite !andb_true_iff.
  intros [[Hk He] Hp]. repeat split; [done|eauto using kind_okb_mono|].
  eapply forallb_mono, Hp. intros []; eauto using value_okb_mono.
Qed.

Lemma heap_okb_lookup h l o :
  heap_okb h = true -> h !! l = Some o -> obj_okb (length h) o = true.
Proof.
  unfold heap_okb. rewrite forallb_forall. intros H Hl.
  apply H, list_elem_of_In, list_elem_of_lookup. eauto.
Qed.

Lemma heap_okb_alloc h o :
  heap_okb h = true -> obj_okb (S (length h)) o = true -> heap_okb (h ++ [o]) = true.
Proof.
  unfold heap_okb. rewrite forallb_app, length_app, Nat.add_1_r. simpl.
  intros H Ho. rewrite Ho, andb_true_r.
  eapply forallb_mono, H. intros x. apply obj_okb_mono. lia.
Qed.

Lemma heap_okb_insert h l o :
  heap_okb h = true -> obj_okb (length h) o = true -> heap_okb (<[l := o]> h) = true.
Proof.
  unfold heap_okb. rewrite length_insert, !forallb_forall. intros H Ho x Hx.
  apply list_elem_of_In, list_elem_of_lookup in Hx as [i Hi].
  apply list_lookup_insert_Some in Hi as [(_ & <- & _)|[_ Hi]]; [done|].
  apply H, list_elem_of_In, list_elem_of_lookup. eauto.
Qed.

Lemma value_okb_lt l n : value_okb n (VObj l) = true <-> l < n.
Proof. simpl. apply Nat.ltb_lt. Qed.

Lemma lookup_ok (h : list obj) l : value_okb (length h) (VObj l) = true -> is_Some (h !! l).
Proof. rewrite value_okb_lt. apply lookup_lt_is_Some_2. Qed.

#[export] Hint Resolve heap_okb_alloc heap_okb_insert heap_okb_lookup : js.
#[export] Hint Resolve value_okb_mono obj_okb_mono : js.

(** ** Footprint: computations that emit no event

    [quiet c]: running [c] leaves the trace as it was, whatever its
    outcome.  Heap operations, property access and every computation
    built from them by [bind] are quiet; only [emit] is not. *)
Definition quiet {A} (c : M A) : Prop :=
  forall s s' r, c s = (s', r) -> trace s' = trace s.

Lemma quiet_ret {A} (a : A) : quiet (ret a).
Proof. by intros s s' r [= <- _]. Qed.

Lemma quiet_throw {A} e : quiet (A:=A) (throw e).
Proof. by intros s s' r [= <- _]. Qed.

Lemma quiet_stuck {A} : quiet (A:=A) stuck.
Proof. by intros s s' r [= <- _]. Qed.

Lemma quiet_get_state : quiet get_state.
Proof. by intros s s' r [= <- _]. Qed.

Lemma quiet_bind {A B} (c : M A) (k : A -> M B) :
  quiet c -> (forall a, quiet (k a)) -> quiet (bind c k).
Proof.
  intros Hc Hk s s' r. unfold bind.
  destruct (c s) as [s1 [a| |]] eqn:E; intros H; apply Hc in E.
  - rewrite <- E. by eapply Hk.
  - by injection H as <- _.
  - by injection H as <- _.
Qed.

Lemma quiet_alloc o : quiet (alloc o).
Proof. by intros s s' r [= <- _]. Qed.

Lemma quiet_read l : quiet (read l).
Proof. intros s s' r. unfold read. by destruct (heap s !! l); intros [= <- _]. Qed.

Lemma quiet_write l o : quiet (write l o).
Proof. intros s s' r. unfold write. by case_decide; intros [= <- _]. Qed.

Lemma quiet_of_option {A} (o : option A) : quiet (of_option o).
Proof. destruct o; [apply quiet_ret|apply quiet_stuck]. Qed.

#[export] Hint Resolve quiet_ret quiet_throw quiet_stuck quiet_get_state : js.
#[export] Hint Resolve quiet_alloc quiet_read quiet_write quiet_of_option : js.

(** Splits a computation into its binds and branches and closes the
    pieces with the hints of [js]. *)
Ltac solve_quiet :=
  repeat first
    [ progress (intros)
    | apply quiet_bind
    | progress case_match
    | progress case_decide
    | solve [eauto with js] ].

Lemma quiet_new_object : quiet new_object.
Proof. unfold new_object. solve_quiet. Qed.

Lemma quiet_get_prop v k : quiet (get_prop v k).
Proof. unfold get_prop. solve_quiet. Qed.

Lemma quiet_set_prop v k w : quiet (set_prop v k w).
Proof. unfold set_prop. solve_quiet. Qed.

#[export] Hint Resolve quiet_new_object quiet_get_prop quiet_set_prop : js.

(** ** Own properties: reading back what was written *)

Lemma lookup_set_prop_list_eq ps k v : lookup_prop (set_prop_list ps k v) k = Some v.
Proof.
  induction ps as [|[k' v'] ps IH]; cbn [set_prop_list lookup_prop]; [by rewrite String.eqb_refl|].
  destruct (String.eqb k k') eqn:E; cbn [lookup_prop]; rewrite E; [done|exact IH].
Qed.

Lemma lookup_set_prop_list_ne ps k k' v :
  k' <> k -> lookup_prop (set_prop_list ps k v) k' = lookup_prop ps k'.
Proof.
  intros Hne. induction ps as [|[k0 v0] ps IH]; cbn [set_prop_list lookup_prop].
  - by rewrite (proj2 (String.eqb_neq _ _) Hne).
  - destruct (String.eqb k k0) eqn:E; cbn [lookup_prop]; [|by rewrite IH].
    apply String.eqb_eq in E as <-. by rewrite (proj2 (String.eqb_neq _ _) Hne).
Qed.

Lemma get_prop_found s l o k w :
  heap s !! l = Some o -> lookup_prop (o_props o) k = Some w -> get_prop (VObj l) k s = (s, ROk w).
Proof. intros Hl Hk. unfold get_prop, bind, read. by rewrite Hl, Hk. Qed.

(** A read of a key that is neither an own property nor one of the
    inherited names gives [undefined]. *)
Lemma get_prop_missing s l o k :
  heap s !! l = Some o -> lookup_prop (o_props o) k = None -> k ∉ inherited_names ->
  get_prop (VObj l) k s = (s, ROk undefined).
Proof. intros Hl Hk Hn. unfold get_prop, bind, read. rewrite Hl, Hk. by rewrite decide_False. Qed.
