(* ===== verification/Private.v ===== *)
(** * Private: [makePrivateValue] and the transform of [makePrivate]

    Models lines 7-29 and 33-38 of [src/src/routes/_index/+middleware.ts].
    [makePrivateValue] reads [value.constructor] (line 12), declares
    [class PrivateValue extends Constructor] (lines 13-27) and evaluates
    [new PrivateValue(...value)] or [new PrivateValue(value)] (line 28).
    The class has the default derived constructor, so [new] passes its
    arguments to the built-in at the root of the [extends] chain, with the
    new class as NewTarget: the data slot of the result is whatever that
    built-in makes of the arguments.  The theorems give the result for
    every kind of input, the errors, and that the operation preserves the
    well-formedness of the heap and never leaves the modelled fragment. *)

From S2P Require Import Prelude JsValue.
Local Open Scope string_scope.
Local Open Scope js_scope.

(** What [value.constructor] finds: the constructor of the value's
    prototype chain, or an own property named [constructor]. *)
Inductive ctor_ref : Type :=
  | CtorFn (c : ctor)
  | CtorValue (v : value).

(** Line 12: [const Constructor = value.constructor]. *)
Definition get_constructor (v : value) : M ctor_ref :=
  match v with
  | VPrim ((PUndefined | PNull) as p) =>
      throw (TypeError ("Cannot read properties of " +:+ prim_type_name p +:+
                        " (reading 'constructor')"))
  | VPrim (PBool _) => ret (CtorFn CBoolean)
  | VPrim (PNum _) => ret (CtorFn CNumber)
  | VPrim (PStr _) => ret (CtorFn CString)
  | VObj l =>
      o <- read l ;;
      match lookup_prop (o_props o) "constructor" with
      | Some w => ret (CtorValue w)
      | None => ret (CtorFn (o_ctor o))
      end
  end.

(** Lines 13-27: [class PrivateValue extends Constructor { ... }].  The
    heritage must be a constructor or [null]; [Some c] is the class
    extending [c], [None] the class extending [null]. *)
Definition class_heritage (r : ctor_ref) : M (option ctor) :=
  match r with
  | CtorFn c => ret (Some c)
  | CtorValue (VPrim PNull) => ret None
  | CtorValue _ => throw (TypeError "Class extends value is not a constructor or null")
  end.

(** [Array.isArray(value)]. *)
Definition is_array (h : list obj) (v : value) : bool :=
  match v with
  | VObj l => match h !! l with
              | Some (mkObj _ (KArray _) _) => true
              | _ => false
              end
  | VPrim _ => false
  end.

(** The spread [...value] of an array: its elements in index order, a
    hole read as [undefined]. *)
Definition spread (es : list (option value)) : list value :=
  map (default undefined) es.

Definition array_elems (h : list obj) (v : value) : list (option value) :=
  match v with
  | VObj l => match h !! l with
              | Some (mkObj _ (KArray es) _) => es
              | _ => []
              end
  | VPrim _ => []
  end.

(** The arguments of [new PrivateValue(..)] on line 28. *)
Definition private_args (h : list obj) (v : value) : list value :=
  if is_array h v then spread (array_elems h v) else [v].

(** The largest array length plus one: [2^32]. *)
Definition array_length_limit : Z := 2 ^ 32.

(** The data slot the built-in constructor [c] gives to the new object
    when it is called through [super(...args)]:
    - [Object] with a NewTarget other than itself ignores its argument and
      makes an empty ordinary object;
    - [Array] with one number argument makes that many holes, and throws
      a [RangeError] when it is not a valid length; otherwise the
      arguments become the elements;
    - [Boolean] applies ToBoolean, [Number] ToNumber and [String]
      ToString to the first argument. *)
Definition builtin_data (c : ctor) (args : list value) : M kind :=
  match c with
  | CObject => ret KOrdinary
  | CArray =>
      match args with
      | [VPrim (PNum n)] =>
          if decide (0 <= n < array_length_limit)%Z
          then ret (KArray (repeat None (Z.to_nat n)))
          else throw (RangeError "Invalid array length")
      | _ => ret (KArray (map Some args))
      end
  | CBoolean => ret (KBoolean (to_boolean (default undefined (head args))))
  | CNumber =>
      match args with
      | [] => ret (KNumber 0)
      | a :: _ => s <- get_state ;; n <- of_option (this_number_value (heap s) a) ;;
                  ret (KNumber n)
      end
  | CString =>
      match args with
      | [] => ret (KString "")
      | a :: _ => s <- get_state ;; t <- of_option (this_string_value (heap s) a) ;;
                  ret (KString t)
      end
  | CPrivate _ => stuck
  end.

(** Line 28: [new PrivateValue(...args)] for the class declared with
    [class_heritage]: the default constructor calls [super(...args)]. *)
Definition construct_private (parent : option ctor) (args : list value) : M value :=
  match parent with
  | None => throw (TypeError "Super constructor null of anonymous class is not a constructor")
  | Some c =>
      k <- builtin_data (root c) args ;;
      l <- alloc (mkObj (CPrivate c) k []) ;;
      ret (VObj l)
  end.

(** Lines 7-29: [makePrivateValue]. *)
Definition makePrivateValue (v : value) : M value :=
  if decide (v = null) then ret v
  else
    r <- get_constructor v ;;
    parent <- class_heritage r ;;
    s <- get_state ;;
    construct_private parent (private_args (heap s) v).

(** Lines 33-38: the function given to [schema.transform] by
    [makePrivate]. *)
Definition makePrivate_transform (data : value) : M value :=
  if String.eqb (typeof data) "undefined" then ret data
  else makePrivateValue data.

(** ** Theorems *)

(** The wrapper object a primitive gets: its built-in constructor and data
    slot. *)
Definition wrapper_of (p : prim) : option (ctor * kind) :=
  match p with
  | PBool b => Some (CBoolean, KBoolean b)
  | PNum n => Some (CNumber, KNumber n)
  | PStr t => Some (CString, KString t)
  | PUndefined | PNull => None
  end.

(** The state after allocating [os] in order. *)
Definition with_objs (s : state) (os : list obj) : state :=
  mkState (heap s ++ os) (trace s).

(** [s'] extends [s]: the old objects are unchanged, new ones are
    appended, and nothing is emitted. *)
Definition grows (s s' : state) : Prop :=
  (exists ext, heap s' = (heap s ++ ext)%list) /\ trace s' = trace s.

(** A run from [s] that does not leave the fragment, keeps the heap
    well-formed, only allocates, and returns a value that points into the
    heap. *)
Definition safe_run {A} (ok : nat -> A -> bool) (s : state) (p : state * res js_error A)
  : Prop :=
  let '(s', r) := p in
  not_stuck r = true /\ state_ok s' = true /\ grows s s' /\
  (forall a, r = ROk a -> ok (length (heap s')) a = true).

(** What the [Number] and [String] constructors need of their first
    argument to stay in the fragment. *)
Definition args_fit (h : list obj) (c : ctor) (args : list value) : bool :=
  match c, args with
  | CNumber, a :: _ => bool_decide (is_Some (this_number_value h a))
  | CString, a :: _ => bool_decide (is_Some (this_string_value h a))
  | _, _ => true
  end.

Lemma root_builtin c : root c <> CPrivate (root c).
Proof. induction c; simpl; congruence. Qed.

Lemma root_idem c : root (root c) = root c.
Proof. induction c; simpl; congruence. Qed.

Lemma kind_fits_private c k : kind_fits (CPrivate c) k = kind_fits c k.
Proof. reflexivity. Qed.

Lemma with_objs_app s os1 os2 :
  with_objs (with_objs s os1) os2 = with_objs s (os1 ++ os2).
Proof. unfold with_objs. simpl. by rewrite app_assoc. Qed.

(** Reading an object just allocated. *)
Lemma read_last s o : read (length (heap s)) (with_objs s [o]) = (with_objs s [o], ROk o).
Proof. unfold read, with_objs. simpl. by rewrite lookup_app_last. Qed.

Lemma get_constructor_obj s l o :
  heap s !! l = Some o ->
  get_constructor (VObj l) s =
    (s, ROk (match lookup_prop (o_props o) "constructor" with
             | Some w => CtorValue w
             | None => CtorFn (o_ctor o)
             end)).
Proof. intros Hl. simpl. unfold bind, read. rewrite Hl. by destruct lookup_prop. Qed.

(** Wrapping a boolean, number or string primitive allocates one wrapper
    object, of the new class, whose data slot holds the primitive. *)
Lemma makePrivateValue_prim_run p c k s :
  wrapper_of p = Some (c, k) ->
  makePrivateValue (VPrim p) s =
    (with_objs s [mkObj (CPrivate c) k []], ROk (VObj (length (heap s)))).
Proof. destruct p; simpl; intros H; simplify_eq; reflexivity. Qed.

(** The primitive a wrapper object converts back to. *)
Lemma wrapper_to_primitive p c k c' ps :
  wrapper_of p = Some (c, k) -> obj_to_primitive (mkObj c' k ps) = Some p.
Proof. destruct p; simpl; intros H; simplify_eq; reflexivity. Qed.

Lemma loose_eq_obj h l o p q :
  h !! l = Some o -> obj_to_primitive o = Some p -> is_Some (wrapper_of p) ->
  loose_eq h (VObj l) (VPrim q) = loose_eq_prim p q.
Proof.
  intros Hl Hp [? Hw]. unfold loose_eq. rewrite Hl. simpl. rewrite Hp.
  destruct p, q; simpl in *; simplify_eq; reflexivity.
Qed.

Lemma makePrivateValue_obj_run l o s :
  heap s !! l = Some o -> lookup_prop (o_props o) "constructor" = None ->
  makePrivateValue (VObj l) s =
    construct_private (Some (o_ctor o)) (private_args (heap s) (VObj l)) s.
Proof.
  intros Hl Hc. unfold makePrivateValue. rewrite decide_False by discriminate.
  rewrite (bind_ok _ _ _ _ _ (get_constructor_obj _ _ _ Hl)), Hc. reflexivity.
Qed.

Lemma construct_private_run c args s k :
  builtin_data (root c) args s = (s, ROk k) ->
  construct_private (Some c) args s =
    (with_objs s [mkObj (CPrivate c) k []], ROk (VObj (length (heap s)))).
Proof. intros H. unfold construct_private. by rewrite (bind_ok _ _ _ _ _ H). Qed.

Lemma private_args_array h l c es ps :
  h !! l = Some (mkObj c (KArray es) ps) -> private_args h (VObj l) = spread es.
Proof. intros Hl. unfold private_args, is_array, array_elems. by rewrite Hl. Qed.

Lemma private_args_other h l o :
  h !! l = Some o -> (forall es, o_kind o <> KArray es) -> private_args h (VObj l) = [VObj l].
Proof.
  intros Hl Hk. unfold private_args, is_array. rewrite Hl.
  destruct o as [c [] ps]; simpl in *; try done. by destruct (Hk elems).
Qed.

Lemma lookup_with_objs_second s o1 o2 :
  heap (with_objs s [o1; o2]) !! S (length (heap s)) = Some o2.
Proof.
  unfold with_objs. simpl. rewrite lookup_app_r by lia.
  by replace (S (length (heap s)) - length (heap s)) with 1 by lia.
Qed.

Lemma lookup_with_objs_first s o1 os :
  heap (with_objs s (o1 :: os)) !! length (heap s) = Some o1.
Proof.
  unfold with_objs. simpl. rewrite lookup_app_r by lia. by rewrite Nat.sub_diag.
Qed.

(** The second wrapping of a wrapper object just allocated. *)
Lemma makePrivateValue_rewrap s c k k' :
  (forall es, k <> KArray es) ->
  builtin_data (root c) [VObj (length (heap s))] (with_objs s [mkObj (CPrivate c) k []]) =
    (with_objs s [mkObj (CPrivate c) k []], ROk k') ->
  makePrivateValue (VObj (length (heap s))) (with_objs s [mkObj (CPrivate c) k []]) =
    (with_objs s [mkObj (CPrivate c) k []; mkObj (CPrivate (CPrivate c)) k' []],
     ROk (VObj (S (length (heap s))))).
Proof.
  intros Hk Hd.
  assert (Hl : heap (with_objs s [mkObj (CPrivate c) k []]) !! length (heap s) =
               Some (mkObj (CPrivate c) k [])) by apply lookup_app_last.
  rewrite (makePrivateValue_obj_run _ _ _ Hl) by reflexivity.
  rewrite (private_args_other _ _ _ Hl) by exact Hk.
  rewrite (construct_private_run _ _ _ k') by exact Hd.
  rewrite with_objs_app. simpl. by rewrite length_app, Nat.add_1_r.
Qed.

(** C2: a wrapped primitive is loosely equal ([==]) to exactly the
    primitives the original is loosely equal to: for every primitive [p]
    and [q], if [makePrivateValue(p)] returns [v] then [v == q] has the
    outcome of [p == q]. *)
Theorem makePrivateValue_loose_eq p q s s' v :
  makePrivateValue (VPrim p) s = (s', ROk v) ->
  loose_eq (heap s') v (VPrim q) = loose_eq_prim p q.
Proof.
  destruct (wrapper_of p) as [[c k]|] eqn:Hw.
  - rewrite (makePrivateValue_prim_run _ _ _ _ Hw). intros [= <- <-].
    eapply loose_eq_obj; [apply lookup_app_last | by eapply wrapper_to_primitive | by rewrite Hw].
  - destruct p; try discriminate; simpl; by intros [= <- <-].
Qed.

Lemma makePrivateValue_loose_eq_witness :
  makePrivateValue (VPrim (PBool false)) (mkState [] []) =
    (mkState [mkObj (CPrivate CBoolean) (KBoolean false) []] [], ROk (VObj 0)) /\
  loose_eq [mkObj (CPrivate CBoolean) (KBoolean false) []] (VObj 0) (VPrim (PBool false)) = Some true.
Proof.
  split; [reflexivity|].
  exact (makePrivateValue_loose_eq (PBool false) (PBool false) (mkState [] []) _ _ eq_refl).
Defined.

(** C17: wrapping twice is not idempotent on booleans: the second
    [new PrivateValue(wrapped)] passes the [Boolean] object to the
    [Boolean] constructor, which applies ToBoolean to an object, so
    [makePrivateValue(makePrivateValue(b))] holds [true] for every [b],
    [false] included. *)
Theorem makePrivateValue_twice_boolean b s :
  (x <- makePrivateValue (VPrim (PBool b)) ;; makePrivateValue x) s =
  (with_objs s [mkObj (CPrivate CBoolean) (KBoolean b) [];
                mkObj (CPrivate (CPrivate CBoolean)) (KBoolean true) []],
   ROk (VObj (S (length (heap s))))).
Proof.
  rewrite (bind_ok _ _ _ _ _ (makePrivateValue_prim_run (PBool b) _ _ s eq_refl)).
  by apply makePrivateValue_rewrap.
Qed.

(** C18: wrapping twice keeps the value of numbers and strings (and of
    [null]): for every primitive that is not a boolean,
    [makePrivateValue(makePrivateValue(p)) == q] has the outcome of
    [p == q]. *)
Theorem makePrivateValue_twice_loose_eq p q s s' v :
  (forall b, p <> PBool b) ->
  (x <- makePrivateValue (VPrim p) ;; makePrivateValue x) s = (s', ROk v) ->
  loose_eq (heap s') v (VPrim q) = loose_eq_prim p q.
Proof.
  intros Hb. destruct (wrapper_of p) as [[c k]|] eqn:Hw.
  - rewrite (bind_ok _ _ _ _ _ (makePrivateValue_prim_run _ _ _ s Hw)).
    assert (Hd : builtin_data (root c) [VObj (length (heap s))]
                   (with_objs s [mkObj (CPrivate c) k []]) =
                 (with_objs s [mkObj (CPrivate c) k []], ROk k)).
    { destruct p as [| |b|n|t]; simplify_eq/=; [by destruct (Hb b)| |];
        unfold bind, get_state, of_option; simpl; by rewrite lookup_app_last. }
    assert (Hk : forall es, k <> KArray es) by (intros es ->; destruct p; simplify_eq/=).
    rewrite (makePrivateValue_rewrap _ _ _ _ Hk Hd).
    intros [= <- <-]. eapply loose_eq_obj; [apply lookup_with_objs_second| |by rewrite Hw].
    by eapply wrapper_to_primitive.
  - destruct p; try discriminate; simpl; by intros [= <- <-].
Qed.

Lemma makePrivateValue_twice_loose_eq_witness :
  (forall b, PNum 42 <> PBool b) /\
  loose_eq [mkObj (CPrivate CNumber) (KNumber 42) [];
            mkObj (CPrivate (CPrivate CNumber)) (KNumber 42) []] (VObj 1) (VPrim (PNum 42))
    = Some true.
Proof.
  split; [discriminate|].
  exact (makePrivateValue_twice_loose_eq (PNum 42) (PNum 42) (mkState [] []) _ _
           ltac:(discriminate) eq_refl).
Defined.

(** C19: wrapping an array whose only element is a number [n] with
    [0 <= n < 2^32] makes an array of [n] holes: [new PrivateValue(...[n])]
    calls [Array(n)], the length constructor, so the element is lost. *)
Theorem makePrivateValue_array_single_number l c n ps s :
  heap s !! l = Some (mkObj c (KArray [Some (VPrim (PNum n))]) ps) ->
  root c = CArray -> lookup_prop ps "constructor" = None ->
  (0 <= n < array_length_limit)%Z ->
  makePrivateValue (VObj l) s =
    (with_objs s [mkObj (CPrivate c) (KArray (repeat None (Z.to_nat n))) []],
     ROk (VObj (length (heap s)))).
Proof.
  intros Hl Hr Hc Hn. rewrite (makePrivateValue_obj_run _ _ _ Hl Hc).
  rewrite (private_args_array _ _ _ _ _ Hl). apply construct_private_run.
  simpl. rewrite Hr. simpl. by rewrite decide_True.
Qed.

Lemma makePrivateValue_array_single_number_witness :
  makePrivateValue (VObj 0) (mkState [mkObj CArray (KArray [Some (VPrim (PNum 3))]) []] []) =
    (mkState [mkObj CArray (KArray [Some (VPrim (PNum 3))]) [];
              mkObj (CPrivate CArray) (KArray [None; None; None]) []] [], ROk (VObj 1)).
Proof.
  exact (makePrivateValue_array_single_number 0 CArray 3 []
           (mkState [mkObj CArray (KArray [Some (VPrim (PNum 3))]) []] [])
           eq_refl eq_refl eq_refl ltac:(unfold array_length_limit; lia)).
Defined.

(** C20: wrapping an array whose only element is a number outside the
    32-bit length range ([n < 0] or [n >= 2^32]) throws a [RangeError]
    and allocates nothing. *)
Theorem makePrivateValue_array_invalid_length l c n ps s :
  heap s !! l = Some (mkObj c (KArray [Some (VPrim (PNum n))]) ps) ->
  root c = CArray -> lookup_prop ps "constructor" = None ->
  ~ (0 <= n < array_length_limit)%Z ->
  makePrivateValue (VObj l) s = (s, RThrow (RangeError "Invalid array length")).
Proof.
  intros Hl Hr Hc Hn. rewrite (makePrivateValue_obj_run _ _ _ Hl Hc).
  rewrite (private_args_array _ _ _ _ _ Hl). unfold construct_private.
  simpl. rewrite Hr. simpl. by rewrite decide_False.
Qed.

Lemma makePrivateValue_array_invalid_length_witness :
  makePrivateValue (VObj 0) (mkState [mkObj CArray (KArray [Some (VPrim (PNum (-1)))]) []] []) =
    (mkState [mkObj CArray (KArray [Some (VPrim (PNum (-1)))]) []] [],
     RThrow (RangeError "Invalid array length")).
Proof.
  exact (makePrivateValue_array_invalid_length 0 CArray (-1) []
           (mkState [mkObj CArray (KArray [Some (VPrim (PNum (-1)))]) []] [])
           eq_refl eq_refl eq_refl ltac:(unfold array_length_limit; lia)).
Defined.

(** C21: wrapping any other array (not a single number element) gives an
    array of the new class with the same elements in the same order,
    holes read as [undefined]. *)
Theorem makePrivateValue_array l c es ps s :
  heap s !! l = Some (mkObj c (KArray es) ps) ->
  root c = CArray -> lookup_prop ps "constructor" = None ->
  (forall n, spread es <> [VPrim (PNum n)]) ->
  makePrivateValue (VObj l) s =
    (with_objs s [mkObj (CPrivate c) (KArray (map Some (spread es))) []],
     ROk (VObj (length (heap s)))).
Proof.
  intros Hl Hr Hc Hn. rewrite (makePrivateValue_obj_run _ _ _ Hl Hc).
  rewrite (private_args_array _ _ _ _ _ Hl). apply construct_private_run.
  simpl. rewrite Hr. simpl.
  destruct (spread es) as [|[[| | |n|]|] [|]]; try reflexivity. by destruct (Hn n).
Qed.

Lemma makePrivateValue_array_witness :
  makePrivateValue (VObj 0) (mkState [mkObj CArray (KArray [Some (VPrim (PStr "a")); None]) []] []) =
    (mkState [mkObj CArray (KArray [Some (VPrim (PStr "a")); None]) [];
              mkObj (CPrivate CArray) (KArray [Some (VPrim (PStr "a")); Some undefined]) []] [],
     ROk (VObj 1)).
Proof.
  exact (makePrivateValue_array 0 CArray [Some (VPrim (PStr "a")); None] []
           (mkState [mkObj CArray (KArray [Some (VPrim (PStr "a")); None]) []] [])
           eq_refl eq_refl eq_refl ltac:(intros n; discriminate)).
Defined.

(** C22: wrapping an ordinary object gives an empty object: the [Object]
    constructor called through [super(value)] ignores its argument, so
    every property of the original is lost. *)
Theorem makePrivateValue_object_drops_props l c ps s :
  heap s !! l = Some (mkObj c KOrdinary ps) ->
  root c = CObject -> lookup_prop ps "constructor" = None ->
  makePrivateValue (VObj l) s =
    (with_objs s [mkObj (CPrivate c) KOrdinary []], ROk (VObj (length (heap s)))).
Proof.
  intros Hl Hr Hc. rewrite (makePrivateValue_obj_run _ _ _ Hl Hc).
  apply construct_private_run. simpl. by rewrite Hr.
Qed.

Lemma makePrivateValue_object_drops_props_witness :
  makePrivateValue (VObj 0) (mkState [mkObj CObject KOrdinary [("a", VPrim (PNum 1))]] []) =
    (mkState [mkObj CObject KOrdinary [("a", VPrim (PNum 1))];
              mkObj (CPrivate CObject) KOrdinary []] [], ROk (VObj 1)).
Proof.
  exact (makePrivateValue_object_drops_props 0 CObject [("a", VPrim (PNum 1))]
           (mkState [mkObj CObject KOrdinary [("a", VPrim (PNum 1))]] []) eq_refl eq_refl eq_refl).
Defined.

(** C25: an object with an own property named [constructor] (which holds
    a data value, not a class) cannot be wrapped: the class declaration or
    its [super] call throws a [TypeError], and the state is unchanged. *)
Theorem makePrivateValue_own_constructor l o w s :
  heap s !! l = Some o -> lookup_prop (o_props o) "constructor" = Some w ->
  exists msg, makePrivateValue (VObj l) s = (s, RThrow (TypeError msg)).
Proof.
  intros Hl Hc. unfold makePrivateValue. rewrite decide_False by discriminate.
  rewrite (bind_ok _ _ _ _ _ (get_constructor_obj _ _ _ Hl)), Hc.
  destruct w as [[]|]; eexists; reflexivity.
Qed.

Lemma makePrivateValue_own_constructor_witness :
  exists msg, makePrivateValue (VObj 0)
    (mkState [mkObj CObject KOrdinary [("constructor", VPrim (PNum 5))]] []) =
    (mkState [mkObj CObject KOrdinary [("constructor", VPrim (PNum 5))]] [], RThrow (TypeError msg)).
Proof.
  exact (makePrivateValue_own_constructor 0 (mkObj CObject KOrdinary [("constructor", VPrim (PNum 5))])
           (VPrim (PNum 5)) (mkState [mkObj CObject KOrdinary [("constructor", VPrim (PNum 5))]] [])
           eq_refl eq_refl).
Defined.

Lemma root_not_private c b : root c <> CPrivate b.
Proof. induction c; simpl; congruence. Qed.

Lemma kind_okb_repeat n m : kind_okb n (KArray (repeat None m)) = true.
Proof. simpl. induction m; simpl; auto. Qed.

Lemma kind_okb_map_some n args :
  kind_okb n (KArray (map Some args)) = forallb (value_okb n) args.
Proof. simpl. induction args; simpl; congruence. Qed.

Lemma safe_unchanged {A} (ok : nat -> A -> bool) s r :
  state_ok s = true -> not_stuck r = true ->
  (forall a, r = ROk a -> ok (length (heap s)) a = true) -> safe_run ok s (s, r).
Proof. intros Hs Hr Ha. repeat split; try done. exists []. by rewrite app_nil_r. Qed.

Lemma safe_alloc s o :
  state_ok s = true -> obj_okb (S (length (heap s))) o = true ->
  safe_run value_okb s (with_objs s [o], ROk (VObj (length (heap s)))).
Proof.
  intros Hs Ho. repeat split; simpl.
  - by apply heap_okb_alloc.
  - by exists [o].
  - intros a [= <-]. apply Nat.ltb_lt. rewrite length_app. simpl. lia.
Qed.

Lemma builtin_data_safe c args s :
  forallb (value_okb (length (heap s))) args = true ->
  args_fit (heap s) (root c) args = true ->
  (exists k, builtin_data (root c) args s = (s, ROk k) /\
             kind_fits c k = true /\ kind_okb (length (heap s)) k = true)
  \/ (exists e, builtin_data (root c) args s = (s, RThrow e)).
Proof.
  intros Ha Hf. unfold kind_fits. destruct (root c) eqn:Hr; simpl in *.
  - left. by eexists.
  - destruct args as [|[[| | |n|]|] [|]]; try (left; eexists; split; [reflexivity|];
      split; [done|]; by rewrite kind_okb_map_some).
    case_decide; [left | right]; eexists; [|reflexivity].
    split; [reflexivity|]. split; [done|apply kind_okb_repeat].
  - left. by eexists.
  - destruct args as [|a args]; [left; by eexists|].
    apply bool_decide_eq_true in Hf as [n Hn]. left. exists (KNumber n).
    unfold bind, get_state, of_option. by rewrite Hn.
  - destruct args as [|a args]; [left; by eexists|].
    apply bool_decide_eq_true in Hf as [t Ht]. left. exists (KString t).
    unfold bind, get_state, of_option. by rewrite Ht.
  - by destruct (root_not_private c _ Hr).
Qed.

Lemma construct_private_safe c args s :
  state_ok s = true -> forallb (value_okb (length (heap s))) args = true ->
  args_fit (heap s) (root c) args = true ->
  safe_run value_okb s (construct_private (Some c) args s).
Proof.
  intros Hs Ha Hf.
  destruct (builtin_data_safe c args s Ha Hf) as [(k & Hk & Hfit & Hok)|(e & He)].
  - rewrite (construct_private_run _ _ _ _ Hk). apply safe_alloc; [done|].
    unfold obj_okb. cbn [o_ctor o_kind o_props forallb]. rewrite kind_fits_private, Hfit.
    rewrite andb_true_r. simpl. eauto using kind_okb_mono.
  - unfold construct_private. rewrite (bind_err _ _ _ _ _ He). by apply safe_unchanged.
Qed.

(** The arguments [makePrivateValue] passes to [new PrivateValue] in a
    well-formed heap point into it and fit the root constructor. *)
Lemma private_args_ok h l o :
  heap_okb h = true -> h !! l = Some o ->
  forallb (value_okb (length h)) (private_args h (VObj l)) = true /\
  args_fit h (root (o_ctor o)) (private_args h (VObj l)) = true.
Proof.
  intros Hh Hl. pose proof (heap_okb_lookup _ _ _ Hh Hl) as Ho.
  pose proof (lookup_lt_Some _ _ _ Hl) as Hlt.
  unfold obj_okb, kind_fits in Ho. apply andb_true_iff in Ho as [Ho _].
  apply andb_true_iff in Ho as [Hfit Hk].
  destruct o as [c k ps]; simpl in *.
  destruct (root c) eqn:Hr, k; try discriminate;
    first [ rewrite (private_args_array _ _ _ _ _ Hl)
          | rewrite (private_args_other _ _ _ Hl) by done ]; simpl.
  all: try (split; simpl; rewrite ?Hl, ?andb_true_r, ?Nat.ltb_lt; simpl; auto; fail).
  split; [|by destruct spread]. unfold spread. simpl in Hk. rewrite forallb_forall in *.
  intros v [[v' |] [<- Hin]]%in_map_iff; simpl; [by apply (Hk (Some v'))|done].
Qed.

(** C7: type safety of [makePrivateValue]: on a well-formed state and a
    value that points into the heap, it never leaves the modelled
    fragment, keeps the heap well-formed, never changes an existing
    object (it only allocates, the wrapped value is untouched), and
    returns a value that points into the new heap. *)
Theorem makePrivateValue_safe v s :
  state_ok s = true -> value_okb (length (heap s)) v = true ->
  safe_run value_okb s (makePrivateValue v s).
Proof.
  intros Hs Hv. destruct v as [p|l].
  - destruct (wrapper_of p) as [[c k]|] eqn:Hw.
    + rewrite (makePrivateValue_prim_run _ _ _ _ Hw). apply safe_alloc; [done|].
      destruct p; simplify_eq/=; reflexivity.
    + destruct p; try discriminate; apply safe_unchanged; naive_solver.
  - destruct (lookup_ok _ _ Hv) as [o Hl].
    destruct (lookup_prop (o_props o) "constructor") as [w|] eqn:Hc.
    + destruct (makePrivateValue_own_constructor _ _ _ _ Hl Hc) as [msg ->].
      apply safe_unchanged; naive_solver.
    + rewrite (makePrivateValue_obj_run _ _ _ Hl Hc).
      destruct (private_args_ok _ _ _ Hs Hl). by apply construct_private_safe.
Qed.

Lemma makePrivateValue_safe_witness :
  state_ok (mkState [mkObj CObject KOrdinary [("a", VPrim (PNum 1))]] []) = true /\
  safe_run value_okb (mkState [mkObj CObject KOrdinary [("a", VPrim (PNum 1))]] [])
    (makePrivateValue (VObj 0) (mkState [mkObj CObject KOrdinary [("a", VPrim (PNum 1))]] [])).
Proof.
  split; [reflexivity|].
  exact (makePrivateValue_safe (VObj 0) (mkState [mkObj CObject KOrdinary [("a", VPrim (PNum 1))]] [])
           eq_refl eq_refl).
Defined.

Lemma get_constructor_state v s s' r :
  get_constructor v s = (s', r) -> s' = s.
Proof.
  destruct v as [p|l]; [destruct p; same_state|].
  simpl. unfold bind, read. destruct (heap s !! l); [|same_state].
  destruct lookup_prop; same_state.
Qed.

Lemma class_heritage_state r s s' p :
  class_heritage r s = (s', p) -> s' = s.
Proof. destruct r as [|[[]|]]; same_state. Qed.

Lemma builtin_data_state c args s s' r :
  builtin_data c args s = (s', r) -> s' = s.
Proof.
  destruct c; simpl; try same_state.
  - destruct args as [|[[| | |n|]|] [|]]; simpl; try same_state. case_decide; same_state.
  - destruct args; [same_state|]. unfold bind, get_state, of_option.
    destruct this_number_value; same_state.
  - destruct args; [same_state|]. unfold bind, get_state, of_option.
    destruct this_string_value; same_state.
Qed.

(** What [new PrivateValue(..)] returns: a fresh object of the new class. *)
Lemma construct_private_result p args s s' w :
  construct_private p args s = (s', ROk w) ->
  exists c k, s' = with_objs s [mkObj (CPrivate c) k []] /\ w = VObj (length (heap s)).
Proof.
  destruct p as [c|]; [|discriminate]. unfold construct_private.
  intros (s1 & k & Hk & H)%bind_inv_ok. apply builtin_data_state in Hk as ->.
  injection H as <- <-. by exists c, k.
Qed.

(** Every value [makePrivateValue] returns, except for [null], is an
    object of a [PrivateValue] class. *)
Lemma makePrivateValue_private v s s' w :
  makePrivateValue v s = (s', ROk w) -> v <> null -> is_private_value (heap s') w = true.
Proof.
  intros H Hv. unfold makePrivateValue in H. rewrite decide_False in H by done.
  apply bind_inv_ok in H as (s1 & r & Hr & H). apply get_constructor_state in Hr as ->.
  apply bind_inv_ok in H as (s2 & p & Hp & H). apply class_heritage_state in Hp as ->.
  apply construct_private_result in H as (c & k & -> & ->).
  unfold is_private_value, with_objs. simpl. by rewrite lookup_app_last.
Qed.

(** [makePrivateValue] and the transform of [makePrivate] emit nothing. *)
Lemma quiet_makePrivateValue v : quiet (makePrivateValue v).
Proof.
  unfold makePrivateValue, get_constructor, class_heritage, construct_private, builtin_data.
  solve_quiet.
Qed.

Lemma quiet_makePrivate_transform v : quiet (makePrivate_transform v).
Proof. unfold makePrivate_transform. case_match; eauto using quiet_makePrivateValue with js. Qed.

#[export] Hint Resolve quiet_makePrivateValue quiet_makePrivate_transform : js.

(** ** The array-length bound *)
