(* ===== verification/Json.v ===== *)
(** * Json: [JSON.stringify] on the module's values

    The serialization boundary of the specification (section 6): the
    [toJSON] method that [PrivateValue] declares on lines 23-25 of
    [src/src/routes/_index/+middleware.ts] returns [undefined], and
    [JSON.stringify] (ECMAScript SerializeJSONProperty) omits an object
    member whose value serializes to [undefined] and writes [null] for
    such an array element.  The result is a JSON tree ([json]); [None]
    stands for [undefined].  The traversal takes fuel and a stack of the
    objects being serialized, for the cycle check; fuel [S (length h)]
    never runs out on a well-formed heap. *)

From S2P Require Import Prelude JsValue Private.
Local Open Scope string_scope.

#[warnings="-register-all"]
Inductive json : Type :=
  | JNull
  | JBool (b : bool)
  | JNum (n : Z)
  | JStr (s : string)
  | JArr (xs : list json)
  | JObj (kvs : list (string * json)).

#[export] Instance json_eq_dec : EqDecision json.
Proof.
  unfold EqDecision, Decision. fix go 1. intros x y. decide equality.
  - apply bool_dec.
  - apply Z.eq_dec.
  - apply String.string_dec.
  - apply (@list_eq_dec _ go).
  - apply (@list_eq_dec _ (@prod_eq_dec _ _ _ go)).
Defined.

Abbreviation R := (res js_error).

Definition res_map {A B} (f : A -> B) (r : R A) : R B :=
  match r with ROk a => ROk (f a) | RThrow e => RThrow e | RStuck => RStuck end.

(** A primitive: [undefined] has no JSON text. *)
Definition serialize_prim (p : prim) : option json :=
  match p with
  | PUndefined => None
  | PNull => Some JNull
  | PBool b => Some (JBool b)
  | PNum n => Some (JNum n)
  | PStr s => Some (JStr s)
  end.

(** SerializeJSONObject's loop over the members, in order, skipping the
    members whose value serializes to [undefined]. *)
Fixpoint ser_members (ser : value -> R (option json)) (ps : list (string * value))
  : R (list (string * json)) :=
  match ps with
  | [] => ROk []
  | (k, v) :: ps' =>
      match ser v with
      | ROk None => ser_members ser ps'
      | ROk (Some j) => res_map (cons (k, j)) (ser_members ser ps')
      | RThrow e => RThrow e
      | RStuck => RStuck
      end
  end.

(** SerializeJSONArray's loop: a hole or an [undefined] element is
    written [null]. *)
Fixpoint ser_elems (ser : value -> R (option json)) (es : list (option value))
  : R (list json) :=
  match es with
  | [] => ROk []
  | e :: es' =>
      match ser (default undefined e) with
      | ROk j => res_map (cons (default JNull j)) (ser_elems ser es')
      | RThrow e => RThrow e
      | RStuck => RStuck
      end
  end.

(** Lines 23-25: [toJSON() { return undefined; }], the result of the
    method [PrivateValue] overrides, as a JSON text or [None] for
    [undefined]. *)
Definition PrivateValue_toJSON : option json := None.

(** SerializeJSONProperty.  Objects of a [PrivateValue] class answer their
    [toJSON] method with [PrivateValue_toJSON]; the other objects of the fragment
    have no callable [toJSON].  Wrapper objects serialize as their
    primitive; ordinary objects and arrays recurse, after the cycle check. *)
Fixpoint serialize (fuel : nat) (h : list obj) (stack : list loc) (v : value)
  : R (option json) :=
  match v with
  | VPrim p => ROk (serialize_prim p)
  | VObj l =>
      match h !! l with
      | None => RStuck
      | Some o =>
          if is_private_ctor (o_ctor o) then ROk PrivateValue_toJSON
          else
            match o_kind o with
            | KBoolean b => ROk (Some (JBool b))
            | KNumber n => ROk (Some (JNum n))
            | KString s => ROk (Some (JStr s))
            | KOrdinary | KArray _ =>
                if decide (l ∈ stack)
                then RThrow (TypeError "Converting circular structure to JSON")
                else
                  match fuel with
                  | 0 => RStuck
                  | S f =>
                      match o_kind o with
                      | KArray es =>
                          res_map (fun xs => Some (JArr xs))
                                  (ser_elems (serialize f h (l :: stack)) es)
                      | _ =>
                          res_map (fun kvs => Some (JObj kvs))
                                  (ser_members (serialize f h (l :: stack)) (o_props o))
                      end
                  end
            end
      end
  end.

(** [JSON.stringify(v)] with the fuel that the cycle check makes enough. *)
Definition json_stringify (h : list obj) (v : value) : R (option json) :=
  serialize (S (length h)) h [] v.


(** ** Theorems *)

Lemma serialize_private_value fuel h stack w :
  is_private_value h w = true -> serialize fuel h stack w = ROk None.
Proof.
  destruct w as [p|l]; [by destruct fuel|].
  destruct fuel; simpl; destruct (h !! l) as [[[] k ps]|]; simpl; done.
Qed.

Lemma serialize_prim_run fuel h stack p :
  serialize fuel h stack (VPrim p) = ROk (serialize_prim p).
Proof. by destruct fuel. Qed.

(** Members whose value serializes to [undefined] can be dropped before
    serializing. *)
Lemma ser_members_filter (P : value -> bool) ser ps :
  (forall v, P v = true -> ser v = ROk None) ->
  ser_members ser ps = ser_members ser (List.filter (fun kv => negb (P kv.2)) ps).
Proof.
  intros HP. induction ps as [|[k v] ps IH]; [done|]. simpl.
  destruct (P v) eqn:Hv; simpl.
  - rewrite (HP v Hv). exact IH.
  - destruct (ser v) as [[j|]| |]; rewrite ?IH; done.
Qed.

Lemma res_map_not_stuck {A B} (f : A -> B) r : not_stuck (res_map f r) = not_stuck r.
Proof. by destruct r. Qed.

Lemma ser_members_not_stuck ser ps :
  (forall kv, In kv ps -> not_stuck (ser kv.2) = true) -> not_stuck (ser_members ser ps) = true.
Proof.
  induction ps as [|[k v] ps IH]; intros H; [done|]. simpl.
  pose proof (H (k, v) (or_introl eq_refl)) as Hv. simpl in Hv.
  destruct (ser v) as [[j|]| |]; try done; rewrite ?res_map_not_stuck; apply IH; eauto using in_cons.
Qed.

Lemma ser_elems_not_stuck ser es :
  (forall e, In e es -> not_stuck (ser (default undefined e)) = true) ->
  not_stuck (ser_elems ser es) = true.
Proof.
  induction es as [|e es IH]; intros H; [done|]. simpl.
  pose proof (H e (or_introl eq_refl)) as He.
  destruct (ser (default undefined e)); try done. rewrite res_map_not_stuck. apply IH; eauto using in_cons.
Qed.

(** A duplicate-free stack of locations below [n] has at most [n] entries. *)
Lemma nodup_bounded_length (st : list loc) n :
  NoDup st -> Forall (fun l => l < n) st -> length st <= n.
Proof.
  intros Hnd Hlt. rewrite <- (length_seq n 0). apply NoDup_incl_length; [by apply NoDup_ListNoDup|].
  intros x Hx. apply in_seq. rewrite Forall_forall in Hlt. apply list_elem_of_In, Hlt in Hx. lia.
Qed.

Lemma serialize_not_stuck h fuel : forall (stack : list loc) v,
  heap_okb h = true -> NoDup stack -> Forall (fun l => l < length h) stack ->
  length h < length stack + fuel -> value_okb (length h) v = true ->
  not_stuck (serialize fuel h stack v) = true.
Proof.
  induction fuel as [|f IH]; intros stack v Hh Hnd Hst Hlen Hv;
    (destruct v as [p|l]; [done|]);
    destruct (lookup_ok _ _ Hv) as [o Hl]; simpl; rewrite Hl;
    destruct (is_private_ctor (o_ctor o)); try done;
    destruct (o_kind o) eqn:Hk; try done; case_decide; try done.
  1,2: pose proof (nodup_bounded_length _ _ Hnd Hst); lia.
  all: apply value_okb_lt in Hv; pose proof (heap_okb_lookup _ _ _ Hh Hl) as Ho;
    unfold obj_okb in Ho; rewrite Hk in Ho; apply andb_true_iff in Ho as [[_ Hes]%andb_true_iff Hps];
    rewrite res_map_not_stuck.
  - apply ser_members_not_stuck. intros [k v] Hin. apply IH; try done.
    + by apply NoDup_cons_2.
    + by constructor.
    + simpl. lia.
    + rewrite forallb_forall in Hps. by apply (Hps (k, v)).
  - apply ser_elems_not_stuck. intros e Hin. apply IH; try done.
    + by apply NoDup_cons_2.
    + by constructor.
    + simpl. lia.
    + simpl in Hes. rewrite forallb_forall in Hes. apply Hes in Hin. by destruct e.
Qed.

(** C3: [JSON.stringify] of the value [makePrivateValue] returns for any
    value other than [null] is [undefined] (absent), at every depth of
    the traversal: the [toJSON] override answers before any member of the
    wrapped value is looked at. *)
Theorem serialize_makePrivateValue v s s' w fuel stack :
  makePrivateValue v s = (s', ROk w) -> v <> null ->
  serialize fuel (heap s') stack w = ROk None.
Proof.
  intros H Hv. apply serialize_private_value. by eapply makePrivateValue_private.
Qed.

Lemma serialize_makePrivateValue_witness :
  makePrivateValue (VPrim (PBool false)) (mkState [] []) =
    (mkState [mkObj (CPrivate CBoolean) (KBoolean false) []] [], ROk (VObj 0)) /\
  serialize 3 [mkObj (CPrivate CBoolean) (KBoolean false) []] [] (VObj 0) = ROk None.
Proof.
  split; [reflexivity|].
  exact (serialize_makePrivateValue (VPrim (PBool false)) (mkState [] []) _ _ 3 []
           eq_refl ltac:(discriminate)).
Defined.

(** C4: redaction changes only the private members: serializing an
    ordinary object gives the serialization of its members with every
    member holding a [PrivateValue] object removed, the other members
    serialized by the same function, unchanged and in the same order. *)
Theorem serialize_object_redacts fuel h stack l c ps :
  h !! l = Some (mkObj c KOrdinary ps) -> is_private_ctor c = false -> l ∉ stack ->
  serialize (S fuel) h stack (VObj l) =
    res_map (fun kvs => Some (JObj kvs))
      (ser_members (serialize fuel h (l :: stack))
         (List.filter (fun kv => negb (is_private_value h kv.2)) ps)).
Proof.
  intros Hl Hc Hst. cbn [serialize]. rewrite Hl. cbn [o_ctor o_kind o_props].
  rewrite Hc, decide_False by done.
  f_equal. apply ser_members_filter. intros v. apply serialize_private_value.
Qed.

Lemma serialize_object_redacts_witness :
  serialize 3 [mkObj CObject KOrdinary [("a", VPrim (PNum 1)); ("s", VObj 1)];
               mkObj (CPrivate CBoolean) (KBoolean true) []] [] (VObj 0) =
    res_map (fun kvs => Some (JObj kvs))
      (ser_members (serialize 2 [mkObj CObject KOrdinary [("a", VPrim (PNum 1)); ("s", VObj 1)];
                                 mkObj (CPrivate CBoolean) (KBoolean true) []] [0])
         [("a", VPrim (PNum 1))]).
Proof.
  exact (serialize_object_redacts 2 [mkObj CObject KOrdinary [("a", VPrim (PNum 1)); ("s", VObj 1)];
           mkObj (CPrivate CBoolean) (KBoolean true) []] [] 0 CObject
           [("a", VPrim (PNum 1)); ("s", VObj 1)] eq_refl eq_refl ltac:(by_decide)).
Defined.

(** The fuel of [json_stringify] is enough: on a well-formed heap the
    stack of the cycle check never holds more than [length h] objects, so
    the model never runs out of fuel and its result is a JSON tree,
    [undefined], or the [TypeError] of a cycle. *)
Lemma json_stringify_total h v :
  heap_okb h = true -> value_okb (length h) v = true ->
  not_stuck (json_stringify h v) = true.
Proof.
  intros Hh Hv. apply serialize_not_stuck; try done.
  - constructor.
  - simpl. lia.
Qed.
