(* ===== verification/Inspect.v ===== *)
(** * Inspect: the debugging hooks of [PrivateValue]

    Models lines 15-19 of [src/src/routes/_index/+middleware.ts]: the
    method [[Symbol.for('nodejs.util.inspect.custom')]] returns
    [`Private<${util.inspect(this.valueOf(), {colors: true})}>`].
    [valueOf] is the inherited one: [Boolean], [Number] and [String]
    objects give their primitive, every other object gives itself, and
    [util.inspect] of an object that has the hook calls the hook again.
    The fuel is the depth of the call stack; running out of it is the
    [RangeError] of an exhausted stack.

    [util.inspect] with [colors: true] styles primitives with ANSI
    escapes: numbers and booleans yellow, strings green and quoted,
    [null] bold, [undefined] grey.  The escaping of control characters
    and backslashes inside strings is not modelled; the choice of quote
    is.  Neither is the layout of long strings: [util.inspect] truncates a
    string beyond [maxStringLength] (10000 characters) with a
    [... n more characters] suffix and may split a long string over
    several lines, while the model renders every string whole, so the
    theorems on inspected strings describe strings below those limits.
    Objects without the hook are not rendered here: the hook never
    reaches one.

    Lines 20-22 declare [[Symbol.toStringTag]()] as a method; the
    second part models [Object.prototype.toString], which uses that
    property only when it holds a string. *)

From S2P Require Import Prelude JsValue Private.
From Stdlib Require Import Ascii.
From stdpp Require Import pretty.
Local Open Scope string_scope.
Local Open Scope js_scope.

(** The escape character, and [s] between the ANSI codes [op] and [cl]. *)
Definition esc : string := String (ascii_of_nat 27) EmptyString.

Definition stylize (op cl s : string) : string :=
  esc +:+ "[" +:+ op +:+ "m" +:+ s +:+ esc +:+ "[" +:+ cl +:+ "m".

Fixpoint string_has (c : ascii) (s : string) : bool :=
  match s with
  | EmptyString => false
  | String c' s' => Ascii.eqb c c' || string_has c s'
  end.

(** Node's choice of quote: single quotes, unless the string holds one
    and no double quote (then double quotes), or holds both and no
    backtick (then backticks). *)
Definition dquote : ascii := ascii_of_nat 34.

Definition quote_string (s : string) : string :=
  let q := if negb (string_has "'"%char s) then "'"
           else if negb (string_has dquote s) then String dquote EmptyString
           else if negb (string_has "`"%char s) then "`" else "'" in
  q +:+ s +:+ q.

Definition inspect_prim (p : prim) : string :=
  match p with
  | PUndefined => stylize "90" "39" "undefined"
  | PNull => stylize "1" "22" "null"
  | PBool true => stylize "33" "39" "true"
  | PBool false => stylize "33" "39" "false"
  | PNum n => stylize "33" "39" (pretty n)
  | PStr s => stylize "32" "39" (quote_string s)
  end.

(** [this.valueOf()] for the object [o] at [l]. *)
Definition value_of (l : loc) (o : obj) : value :=
  match o_kind o with
  | KBoolean b => VPrim (PBool b)
  | KNumber n => VPrim (PNum n)
  | KString s => VPrim (PStr s)
  | KOrdinary | KArray _ => VObj l
  end.

(** [util.inspect(v, {colors: true})] for the values the hook can reach. *)
Fixpoint inspect (fuel : nat) (h : list obj) (v : value) : res js_error string :=
  match v with
  | VPrim p => ROk (inspect_prim p)
  | VObj l =>
      match h !! l with
      | None => RStuck
      | Some o =>
          if is_private_ctor (o_ctor o) then
            match fuel with
            | 0 => RThrow (RangeError "Maximum call stack size exceeded")
            | S f =>
                match inspect f h (value_of l o) with
                | ROk s => ROk ("Private<" +:+ s +:+ ">")
                | r => r
                end
            end
          else RStuck
      end
  end.

(** ** [Symbol.toStringTag] and [Object.prototype.toString] *)

(** What a property keyed by [Symbol.toStringTag] can hold: a string, or
    a method (a function, here with the string it would return). *)
Inductive tag_value : Type :=
  | TagString (t : string)
  | TagMethod (returns : string).

(** Lines 20-22: [[Symbol.toStringTag]() { return 'Private'; }] is a
    method definition, so the property of the class's prototype holds a
    function, not the string ['Private']. *)
Definition PrivateValue_toStringTag : tag_value := TagMethod "Private".

(** The built-in tag of an object, from its internal slots. *)
Definition builtin_tag (k : kind) : string :=
  match k with
  | KArray _ => "Array"
  | KBoolean _ => "Boolean"
  | KNumber _ => "Number"
  | KString _ => "String"
  | KOrdinary => "Object"
  end.

(** [Object.prototype.toString.call(v)]: the built-in tag, replaced by
    the value of [Symbol.toStringTag] only when that value is a string.
    The built-in prototypes of the fragment have no such property. *)
Definition object_to_string (h : list obj) (v : value) : option string :=
  match v with
  | VPrim PUndefined => Some "[object Undefined]"
  | VPrim PNull => Some "[object Null]"
  | VPrim (PBool _) => Some "[object Boolean]"
  | VPrim (PNum _) => Some "[object Number]"
  | VPrim (PStr _) => Some "[object String]"
  | VObj l =>
      o ← h !! l;
      let tag :=
        if is_private_ctor (o_ctor o) then
          match PrivateValue_toStringTag with
          | TagString t => t
          | TagMethod _ => builtin_tag (o_kind o)
          end
        else builtin_tag (o_kind o) in
      Some ("[object " +:+ tag +:+ "]")
  end.

(** ** Theorems *)

Definition stack_overflow : js_error := RangeError "Maximum call stack size exceeded".

(** A wrapper of a primitive converts back to it through [valueOf]. *)
Lemma value_of_wrapper p c k l :
  wrapper_of p = Some (c, k) -> value_of l (mkObj (CPrivate c) k []) = VPrim p.
Proof. destruct p; simpl; intros H; simplify_eq; reflexivity. Qed.

(** The hook on a [PrivateValue] object whose [valueOf] is a primitive. *)
Lemma inspect_hook_prim fuel h l o p :
  h !! l = Some o -> is_private_ctor (o_ctor o) = true -> value_of l o = VPrim p ->
  inspect (S fuel) h (VObj l) = ROk ("Private<" +:+ inspect_prim p +:+ ">").
Proof. intros Hl Hp Hv. cbn [inspect]. rewrite Hl, Hp, Hv. by destruct fuel. Qed.

(** What wrapping a primitive other than [null] and [undefined] gives. *)
Lemma makePrivateValue_prim_wrapper p s s' w :
  p <> PUndefined -> p <> PNull -> makePrivateValue (VPrim p) s = (s', ROk w) ->
  exists c k, wrapper_of p = Some (c, k) /\
              s' = with_objs s [mkObj (CPrivate c) k []] /\ w = VObj (length (heap s)).
Proof.
  intros Hu Hn Hm. destruct (wrapper_of p) as [[c k]|] eqn:Hw; [|by destruct p].
  rewrite (makePrivateValue_prim_run _ _ _ _ Hw) in Hm. simplify_eq. by exists c, k.
Qed.

(** [valueOf] of an ordinary object or an array is the object itself. *)
Lemma value_of_container l o :
  o_kind o = KOrdinary \/ (exists es, o_kind o = KArray es) -> value_of l o = VObj l.
Proof. unfold value_of. by intros [-> | [es ->]]. Qed.

(** C26: the hook of a [PrivateValue] whose [valueOf] returns the object
    itself (a wrapped plain object or array) never returns: at every
    depth of the call stack, [util.inspect] calls the hook again on the
    same object, until the stack is exhausted and a [RangeError] is
    thrown. *)
Theorem inspect_private_container_overflow h l o fuel :
  h !! l = Some o -> is_private_ctor (o_ctor o) = true ->
  o_kind o = KOrdinary \/ (exists es, o_kind o = KArray es) ->
  inspect fuel h (VObj l) = RThrow stack_overflow.
Proof.
  intros Hl Hp Hk. induction fuel as [|fuel IH]; cbn [inspect]; rewrite Hl, Hp; [done|].
  by rewrite (value_of_container _ _ Hk), IH.
Qed.

Lemma inspect_private_container_overflow_witness :
  inspect 50 [mkObj (CPrivate CObject) KOrdinary []] (VObj 0) = RThrow stack_overflow.
Proof.
  apply (inspect_private_container_overflow _ 0 (mkObj (CPrivate CObject) KOrdinary [])).
  - reflexivity.
  - reflexivity.
  - by left.
Defined.

(** C15: [util.inspect] of a wrapped primitive is [Private<...>] around
    the coloured rendering of the primitive itself, as soon as the stack
    has room for one call of the hook. *)
Theorem inspect_makePrivateValue_prim p s s' w fuel :
  p <> PUndefined -> p <> PNull ->
  makePrivateValue (VPrim p) s = (s', ROk w) ->
  inspect (S fuel) (heap s') w = ROk ("Private<" +:+ inspect_prim p +:+ ">").
Proof.
  intros Hu Hn Hm. destruct (makePrivateValue_prim_wrapper _ _ _ _ Hu Hn Hm) as (c & k & Hw & -> & ->).
  apply (inspect_hook_prim _ _ _ (mkObj (CPrivate c) k [])).
  - apply lookup_with_objs_first.
  - reflexivity.
  - by apply value_of_wrapper.
Qed.

Lemma inspect_makePrivateValue_prim_witness :
  inspect 1 [mkObj (CPrivate CString) (KString "it's") []] (VObj 0) =
    ROk ("Private<" +:+ inspect_prim (PStr "it's") +:+ ">").
Proof.
  exact (inspect_makePrivateValue_prim (PStr "it's") (mkState [] [])
           (mkState [mkObj (CPrivate CString) (KString "it's") []] []) (VObj 0) 0
           ltac:(discriminate) ltac:(discriminate) eq_refl).
Defined.

(** C16: wrapping an ordinary object and inspecting the result always
    fails with a stack overflow, whatever the depth available: the
    specification's [inspect(W) = "Private<" ++ inspect(value) ++ ">"]
    does not hold for objects. *)
Theorem inspect_makePrivateValue_object l c ps s s' w fuel :
  heap s !! l = Some (mkObj c KOrdinary ps) ->
  root c = CObject -> lookup_prop ps "constructor" = None ->
  makePrivateValue (VObj l) s = (s', ROk w) ->
  inspect fuel (heap s') w = RThrow stack_overflow.
Proof.
  intros Hl Hr Hc Hm. rewrite (makePrivateValue_obj_run _ _ _ Hl Hc) in Hm.
  rewrite (construct_private_run _ _ _ KOrdinary) in Hm by (simpl; by rewrite Hr).
  simplify_eq. apply (inspect_private_container_overflow _ _ (mkObj (CPrivate c) KOrdinary [])).
  - apply lookup_with_objs_first.
  - reflexivity.
  - by left.
Qed.

Lemma inspect_makePrivateValue_object_witness :
  inspect 10 [mkObj CObject KOrdinary [("a", VPrim (PNum 1))]; mkObj (CPrivate CObject) KOrdinary []]
    (VObj 1) = RThrow stack_overflow.
Proof.
  exact (inspect_makePrivateValue_object 0 CObject [("a", VPrim (PNum 1))]
           (mkState [mkObj CObject KOrdinary [("a", VPrim (PNum 1))]] [])
           (mkState [mkObj CObject KOrdinary [("a", VPrim (PNum 1))];
                     mkObj (CPrivate CObject) KOrdinary []] []) (VObj 1) 10
           eq_refl eq_refl eq_refl eq_refl).
Defined.

(** C27: wrapping [false] twice and inspecting prints [Private<true>]
    (one [Private] tag, the value [true]): the second wrapping does not
    nest the tag but turns the value into [true]. *)
Theorem inspect_rewrap_false s s' w fuel :
  (x <- makePrivateValue (VPrim (PBool false)) ;; makePrivateValue x) s = (s', ROk w) ->
  inspect (S fuel) (heap s') w = ROk ("Private<" +:+ inspect_prim (PBool true) +:+ ">").
Proof.
  rewrite (bind_ok _ _ _ _ _ (makePrivateValue_prim_run (PBool false) _ _ s eq_refl)).
  rewrite (makePrivateValue_rewrap s CBoolean (KBoolean false) (KBoolean true)); [|done|done].
  intros Hm. simplify_eq.
  apply (inspect_hook_prim _ _ _ (mkObj (CPrivate (CPrivate CBoolean)) (KBoolean true) [])).
  - apply lookup_with_objs_second.
  - reflexivity.
  - reflexivity.
Qed.

Lemma inspect_rewrap_false_witness :
  inspect 1 [mkObj (CPrivate CBoolean) (KBoolean false) [];
             mkObj (CPrivate (CPrivate CBoolean)) (KBoolean true) []] (VObj 1) =
    ROk ("Private<" +:+ inspect_prim (PBool true) +:+ ">").
Proof.
  exact (inspect_rewrap_false (mkState [] [])
           (mkState [mkObj (CPrivate CBoolean) (KBoolean false) [];
                     mkObj (CPrivate (CPrivate CBoolean)) (KBoolean true) []] []) (VObj 1) 0
           eq_refl).
Defined.

(** C12: round trip: wrapping a primitive other than [null] and
    [undefined] and reading it back with [valueOf] (as the [util.inspect]
    hook does on line 17) gives the primitive itself, on a fresh
    [PrivateValue] object. *)
Theorem makePrivateValue_valueOf p s s' w :
  p <> PUndefined -> p <> PNull -> makePrivateValue (VPrim p) s = (s', ROk w) ->
  exists l o, w = VObj l /\ heap s' !! l = Some o /\ heap s !! l = None /\
              is_private_ctor (o_ctor o) = true /\ value_of l o = VPrim p.
Proof.
  intros Hu Hn Hm. destruct (makePrivateValue_prim_wrapper _ _ _ _ Hu Hn Hm) as (c & k & Hw & -> & ->).
  exists (length (heap s)), (mkObj (CPrivate c) k []).
  split; [done|]. split; [apply lookup_with_objs_first|]. split; [by apply lookup_ge_None|].
  split; [done|]. by apply value_of_wrapper.
Qed.

Lemma makePrivateValue_valueOf_witness :
  exists l o, VObj 0 = VObj l /\ [mkObj (CPrivate CNumber) (KNumber 7) []] !! l = Some o /\
              ([] : list obj) !! l = None /\
              is_private_ctor (o_ctor o) = true /\ value_of l o = VPrim (PNum 7).
Proof.
  exact (makePrivateValue_valueOf (PNum 7) (mkState [] [])
           (mkState [mkObj (CPrivate CNumber) (KNumber 7) []] []) (VObj 0)
           ltac:(discriminate) ltac:(discriminate) eq_refl).
Defined.

(** The tag [Object.prototype.toString] gives a [PrivateValue] object:
    its built-in tag, the method of lines 20-22 not being a string. *)
Lemma object_to_string_private h l o :
  h !! l = Some o -> is_private_ctor (o_ctor o) = true ->
  object_to_string h (VObj l) = Some ("[object " +:+ builtin_tag (o_kind o) +:+ "]").
Proof. intros Hl Hp. simpl. by rewrite Hl; simpl; rewrite Hp. Qed.

(** C13: the [Symbol.toStringTag] member has no effect: for every value
    [makePrivateValue] wraps (anything but [null]),
    [Object.prototype.toString] of the wrapper is the built-in tag of its
    data ([Boolean], [Number], [String], [Array] or [Object]), never
    ["[object Private]"]. *)
Theorem makePrivateValue_toStringTag v s s' w :
  makePrivateValue v s = (s', ROk w) -> v <> null ->
  exists k, object_to_string (heap s') w = Some ("[object " +:+ builtin_tag k +:+ "]") /\
            object_to_string (heap s') w <> Some "[object Private]".
Proof.
  intros Hm Hv. pose proof (makePrivateValue_private _ _ _ _ Hm Hv) as Hp.
  destruct w as [|l]; [done|]. simpl in Hp.
  destruct (heap s' !! l) as [o|] eqn:Hl; [|done].
  rewrite (object_to_string_private _ _ _ Hl Hp). exists (o_kind o).
  split; [done|]. by destruct (o_kind o).
Qed.

Lemma makePrivateValue_toStringTag_witness :
  exists k, object_to_string [mkObj (CPrivate CBoolean) (KBoolean false) []] (VObj 0) =
              Some ("[object " +:+ builtin_tag k +:+ "]") /\
            object_to_string [mkObj (CPrivate CBoolean) (KBoolean false) []] (VObj 0) <>
              Some "[object Private]".
Proof.
  exact (makePrivateValue_toStringTag (VPrim (PBool false)) (mkState [] [])
           (mkState [mkObj (CPrivate CBoolean) (KBoolean false) []] []) (VObj 0)
           eq_refl ltac:(discriminate)).
Defined.
