(* ===== verification/Zod.v ===== *)
(** * Zod: the schemas of the module and their synchronous [parse]

    [makePrivate] (lines 32-39 of [src/src/routes/_index/+middleware.ts])
    is [schema.transform(f)] with the transform modelled in [Private];
    [UserSchema] (lines 47-51) is a [z.object] of a string, a number and
    a private boolean; [data] (lines 41-45) is the record the module
    stands in for the database with.

    The zod library is not code of the repository: [zparse] follows the
    semantics of its version 3 for the schemas the module builds
    ([ZodString], [ZodNumber], [ZodBoolean], [ZodObject] with the default
    [strip] policy, and [ZodEffects] of a transform).  A parse collects
    every issue of every field, in the order of the shape, each with its
    path; a transform runs only on a valid inner result; an object result
    is a fresh ordinary object with the shape's keys in the shape's
    order. *)

From S2P Require Import Prelude JsValue Private Json.
Local Open Scope string_scope.
Local Open Scope js_scope.

(** The transforms the module passes to [.transform]. *)
Inductive transform : Type :=
  | TMakePrivate.

#[warnings="-register-all"]
Inductive schema : Type :=
  | ZString
  | ZNumber
  | ZBoolean
  | ZObject (shape : list (string * schema))
  | ZEffects (inner : schema) (t : transform).

Definition run_transform (t : transform) : value -> M value :=
  match t with TMakePrivate => makePrivate_transform end.

(** Lines 32-39: [makePrivate(schema)]. *)
Definition makePrivate (s : schema) : schema := ZEffects s TMakePrivate.

(** Lines 47-51: [UserSchema]. *)
Definition UserSchema : schema :=
  ZObject [("name", ZString); ("age", ZNumber);
           ("super_secret_property", makePrivate ZBoolean)].

(** Lines 41-45: the object [data]. *)
Definition data_object : obj :=
  mkObj CObject KOrdinary
    [("name", VPrim (PStr "John Doe")); ("age", VPrim (PNum 42));
     ("super_secret_property", VPrim (PBool false))].

(** zod's [getParsedType] on the values of the fragment. *)
Definition parsed_type (h : list obj) (v : value) : string :=
  match v with
  | VPrim p => prim_type_name p
  | VObj l => match h !! l with
              | Some (mkObj _ (KArray _) _) => "array"
              | _ => "object"
              end
  end.

(** [ctx.data[key]] and [key in ctx.data] for an object input. *)
Definition read_field (v : value) (k : string) : M (value * bool) :=
  match v with
  | VObj l =>
      o <- read l ;;
      match lookup_prop (o_props o) k with
      | Some w => ret (w, true)
      | None => if decide (k ∈ inherited_names) then stuck else ret (undefined, false)
      end
  | VPrim _ => stuck
  end.

(** A primitive schema: the parsed type must be the expected one. *)
Definition parse_type (expected : string) (path : list string) (v : value)
  : M (list zissue * option value) :=
  s <- get_state ;;
  let t := parsed_type (heap s) v in
  if String.eqb t expected then ret ([], Some v)
  else ret ([mkIssue path expected t], None).

(** [ParseStatus.mergeObjectSync]: the result object is allocated first
    and filled in shape order; an aborted field aborts the whole object;
    a field whose value is [undefined] is set only when the key is present
    in the input; [__proto__] is never set. *)
Fixpoint merge_fields (target : value) (pairs : list (string * option value * bool))
  : M (option value) :=
  match pairs with
  | [] => ret (Some target)
  | (k, None, _) :: _ => ret None
  | (k, Some x, present) :: rest =>
      (if negb (String.eqb k "__proto__") && (negb (String.eqb (typeof x) "undefined") || present)
       then set_prop target k x else ret tt) ;;
      merge_fields target rest
  end.

Definition merge_object (pairs : list (string * option value * bool)) : M (option value) :=
  l <- alloc (mkObj CObject KOrdinary []) ;;
  merge_fields (VObj l) pairs.

(** The loop of [ZodObject._parse] over the shape keys, in order: read
    the field, parse it with the field's schema (the parser [zp]) under
    the path extended with the key. *)
Fixpoint zparse_fields (zp : schema -> list string -> value -> M (list zissue * option value))
  (shape : list (string * schema)) (path : list string) (v : value)
  : M (list zissue * list (string * option value * bool)) :=
  match shape with
  | [] => ret ([], [])
  | (k, fs) :: rest =>
      fp <- read_field v k ;;
      p1 <- zp fs (path ++ [k])%list fp.1 ;;
      p2 <- zparse_fields zp rest path v ;;
      ret ((p1.1 ++ p2.1)%list, (k, p1.2, fp.2) :: p2.2)
  end.

(** [schema._parse] with the issues of the context returned alongside
    the result ([None] is [INVALID]). *)
Fixpoint zparse (sch : schema) (path : list string) (v : value)
  : M (list zissue * option value) :=
  match sch with
  | ZString => parse_type "string" path v
  | ZNumber => parse_type "number" path v
  | ZBoolean => parse_type "boolean" path v
  | ZEffects inner t =>
      p <- zparse inner path v ;;
      match p with
      | (iss, Some x) => y <- run_transform t x ;; ret (iss, Some y)
      | (iss, None) => ret (iss, None)
      end
  | ZObject shape =>
      s <- get_state ;;
      let t := parsed_type (heap s) v in
      if String.eqb t "object" then
        p <- zparse_fields zparse shape path v ;;
        r <- merge_object p.2 ;;
        ret (p.1, r)
      else ret ([mkIssue path "object" t], None)
  end.

(** [schema.parse(data)]: the value, or the [ZodError] with every issue. *)
Definition zod_parse (sch : schema) (v : value) : M value :=
  p <- zparse sch [] v ;;
  match p with
  | (_, Some x) => ret x
  | (iss, None) => throw (ZodError iss)
  end.

(** ** Closed forms for flat record schemas *)

(** What [read_field] gives for a key of an object. *)
Definition field_of (o : obj) (k : string) : value * bool :=
  match lookup_prop (o_props o) k with Some w => (w, true) | None => (undefined, false) end.

Definition prim_check (fs : schema) : option string :=
  match fs with
  | ZString => Some "string"
  | ZNumber => Some "number"
  | ZBoolean => Some "boolean"
  | _ => None
  end.

(** The outcome of the primitive schema expecting [t] on [v]. *)
Definition check_field (h : list obj) (path : list string) (t : string) (v : value)
  : list zissue * option value :=
  if String.eqb (parsed_type h v) t then ([], Some v)
  else ([mkIssue path t (parsed_type h v)], None).

(** A shape key the closed form covers: a primitive schema under a name
    that no prototype provides. *)
Definition prim_key_ok (kf : string * schema) : bool :=
  bool_decide (is_Some (prim_check kf.2)) && bool_decide (kf.1 ∉ inherited_names).

Definition field_result (h : list obj) (path : list string) (o : obj) (kf : string * schema)
  : list zissue * option value :=
  check_field h (path ++ [kf.1])%list (default "" (prim_check kf.2)) (field_of o kf.1).1.

Definition field_issues (h : list obj) (path : list string) (o : obj)
  (shape : list (string * schema)) : list zissue :=
  flat_map (fun kf => (field_result h path o kf).1) shape.

Definition field_pairs (h : list obj) (path : list string) (o : obj)
  (shape : list (string * schema)) : list (string * option value * bool) :=
  map (fun kf => (kf.1, (field_result h path o kf).2, (field_of o kf.1).2)) shape.

(** The properties [merge_fields] leaves in the result object. *)
Fixpoint merge_props (ps : list (string * value)) (pairs : list (string * option value * bool))
  : list (string * value) :=
  match pairs with
  | [] => ps
  | (k, None, _) :: _ => ps
  | (k, Some x, present) :: rest =>
      merge_props
        (if negb (String.eqb k "__proto__") && (negb (String.eqb (typeof x) "undefined") || present)
         then set_prop_list ps k x else ps) rest
  end.

Definition all_valid (pairs : list (string * option value * bool)) : bool :=
  forallb (fun p => bool_decide (is_Some p.1.2)) pairs.

Lemma parse_type_run e path v s :
  parse_type e path v s = (s, ROk (check_field (heap s) path e v)).
Proof. unfold parse_type, check_field, bind, get_state. simpl. by destruct String.eqb. Qed.

Lemma read_field_run s l o k :
  heap s !! l = Some o -> k ∉ inherited_names -> read_field (VObj l) k s = (s, ROk (field_of o k)).
Proof.
  intros Hl Hk. unfold read_field, field_of, bind, read. rewrite Hl.
  destruct lookup_prop; [done|]. by rewrite decide_False.
Qed.

Lemma zparse_fields_prim shape path l o s :
  heap s !! l = Some o -> forallb prim_key_ok shape = true ->
  zparse_fields zparse shape path (VObj l) s =
    (s, ROk (field_issues (heap s) path o shape, field_pairs (heap s) path o shape)).
Proof.
  intros Hl. induction shape as [|[k fs] shape IH]; [done|].
  simpl. intros [[[t Ht]%bool_decide_eq_true Hk]%andb_true_iff Hs]%andb_true_iff.
  apply bool_decide_eq_true in Hk.
  rewrite (bind_ok _ _ _ _ _ (read_field_run _ _ _ _ Hl Hk)).
  destruct fs; cbn in Ht; try discriminate; cbn [zparse];
    rewrite (bind_ok _ _ _ _ _ (parse_type_run _ _ _ _)), (bind_ok _ _ _ _ _ (IH Hs)); done.
Qed.

Lemma set_prop_ordinary s t ps k x :
  heap s !! t = Some (mkObj CObject KOrdinary ps) -> k <> "__proto__" ->
  set_prop (VObj t) k x s =
    (mkState (<[t := mkObj CObject KOrdinary (set_prop_list ps k x)]> (heap s)) (trace s), ROk tt).
Proof.
  intros Ht Hk. unfold set_prop, bind, read. rewrite Ht. simpl.
  rewrite decide_False by (unfold setter_name; intros [?|[_ []]]; done).
  unfold write. simpl. by rewrite decide_True by (eapply lookup_lt_Some; eauto).
Qed.

Lemma all_valid_cons k x present pairs :
  all_valid ((k, x, present) :: pairs) = bool_decide (is_Some x) && all_valid pairs.
Proof. reflexivity. Qed.

Lemma merge_fields_run pairs : forall s t ps0,
  heap s !! t = Some (mkObj CObject KOrdinary ps0) ->
  merge_fields (VObj t) pairs s =
    (mkState (<[t := mkObj CObject KOrdinary (merge_props ps0 pairs)]> (heap s)) (trace s),
     ROk (if all_valid pairs then Some (VObj t) else None)).
Proof.
  induction pairs as [|[[k [x|]] present] pairs IH]; intros s t ps0 Ht;
    cbn [merge_fields merge_props]; rewrite ?all_valid_cons.
  - by rewrite list_insert_id by done; destruct s.
  - destruct (negb (String.eqb k "__proto__") &&
              (negb (String.eqb (typeof x) "undefined") || present)) eqn:Hc.
    + apply andb_true_iff in Hc as [Hk _]. apply negb_true_iff, String.eqb_neq in Hk.
      rewrite (bind_ok _ _ _ _ _ (set_prop_ordinary _ _ _ _ _ Ht Hk)).
      rewrite (IH _ _ (set_prop_list ps0 k x)); simpl;
        [|by apply list_lookup_insert_eq; eapply lookup_lt_Some].
      by rewrite list_insert_insert_eq.
    + by rewrite bind_ret_l, (IH _ _ ps0).
  - by rewrite list_insert_id by done; destruct s.
Qed.

Lemma merge_object_run s pairs :
  merge_object pairs s =
    (with_objs s [mkObj CObject KOrdinary (merge_props [] pairs)],
     ROk (if all_valid pairs then Some (VObj (length (heap s))) else None)).
Proof.
  unfold merge_object. rewrite bind_ok with (s' := with_objs s [mkObj CObject KOrdinary []])
    (a := length (heap s)) by reflexivity.
  rewrite (merge_fields_run _ _ _ []); [|apply lookup_app_last]. unfold with_objs. simpl.
  rewrite <- (Nat.add_0_r (length (heap s))) at 1. by rewrite insert_app_r.
Qed.

Lemma zparse_object_run shape path l o s :
  heap s !! l = Some o -> (forall es, o_kind o <> KArray es) ->
  zparse (ZObject shape) path (VObj l) s =
    (p <- zparse_fields zparse shape path (VObj l) ;; r <- merge_object p.2 ;; ret (p.1, r)) s.
Proof.
  intros Hl Hk. cbn [zparse]. unfold bind at 1, get_state. unfold parsed_type. rewrite Hl.
  destruct o as [c [] ps]; try reflexivity. by destruct (Hk elems).
Qed.

Lemma zparse_effects inner t path v :
  zparse (ZEffects inner t) path v =
    (p <- zparse inner path v ;;
     match p with
     | (iss, Some x) => y <- run_transform t x ;; ret (iss, Some y)
     | (iss, None) => ret (iss, None)
     end).
Proof. reflexivity. Qed.

Lemma zparse_fields_nil zp path v s : zparse_fields zp [] path v s = (s, ROk ([], [])).
Proof. reflexivity. Qed.

Lemma zparse_fields_cons_run zp k fs rest path v s s1 s2 fp p1 p2 :
  read_field v k s = (s, ROk fp) ->
  zp fs (path ++ [k])%list fp.1 s = (s1, ROk p1) ->
  zparse_fields zp rest path v s1 = (s2, ROk p2) ->
  zparse_fields zp ((k, fs) :: rest) path v s =
    (s2, ROk ((p1.1 ++ p2.1)%list, (k, p1.2, fp.2) :: p2.2)).
Proof.
  intros H1 H2 H3. cbn [zparse_fields].
  by rewrite (bind_ok _ _ _ _ _ H1), (bind_ok _ _ _ _ _ H2), (bind_ok _ _ _ _ _ H3).
Qed.

Lemma zparse_prim_run sch t path v s :
  prim_check sch = Some t -> zparse sch path v s = (s, ROk (check_field (heap s) path t v)).
Proof. destruct sch; intros H; cbn in H; try discriminate; injection H as <-; apply parse_type_run. Qed.

Lemma all_valid_field_pairs h path o shape :
  all_valid (field_pairs h path o shape) = bool_decide (field_issues h path o shape = []).
Proof.
  induction shape as [|kf shape IH]; [done|].
  change (field_pairs h path o (kf :: shape)) with
    ((kf.1, (field_result h path o kf).2, (field_of o kf.1).2) :: field_pairs h path o shape).
  change (field_issues h path o (kf :: shape)) with
    ((field_result h path o kf).1 ++ field_issues h path o shape)%list.
  rewrite all_valid_cons, IH. unfold field_result, check_field.
  by destruct String.eqb.
Qed.

Lemma zparse_object_prim_run shape path l o s :
  heap s !! l = Some o -> (forall es, o_kind o <> KArray es) ->
  forallb prim_key_ok shape = true ->
  zparse (ZObject shape) path (VObj l) s =
    (with_objs s [mkObj CObject KOrdinary (merge_props [] (field_pairs (heap s) path o shape))],
     ROk (field_issues (heap s) path o shape,
          if bool_decide (field_issues (heap s) path o shape = [])
          then Some (VObj (length (heap s))) else None)).
Proof.
  intros Hl Hk Hs. rewrite (zparse_object_run _ _ _ _ _ Hl Hk).
  rewrite (bind_ok _ _ _ _ _ (zparse_fields_prim _ _ _ _ _ Hl Hs)).
  rewrite (bind_ok _ _ _ _ _ (merge_object_run _ _)). simpl.
  by rewrite all_valid_field_pairs.
Qed.

Lemma set_prop_list_fresh ps k x :
  k ∉ map fst ps -> set_prop_list ps k x = (ps ++ [(k, x)])%list.
Proof.
  induction ps as [|[k' v'] ps IH]; intros Hk; [done|]. simpl in *.
  rewrite not_elem_of_cons in Hk. destruct Hk as [Hne Hk].
  rewrite (proj2 (String.eqb_neq k k') Hne). by rewrite IH.
Qed.

(** With no issue, every field is kept with its input value. *)
Lemma merge_props_valid h path o shape : forall acc,
  forallb prim_key_ok shape = true -> NoDup (map fst shape) ->
  (forall k, k ∈ map fst shape -> k ∉ map fst acc) ->
  field_issues h path o shape = [] ->
  merge_props acc (field_pairs h path o shape) =
    (acc ++ map (fun kf => (kf.1, (field_of o kf.1).1)) shape)%list.
Proof.
  induction shape as [|[k fs] shape IH]; intros acc Hs Hnd Hacc Hi; [by rewrite app_nil_r|].
  simpl in Hs. apply andb_true_iff in Hs as [Hk Hs].
  apply andb_true_iff in Hk as [[t Ht]%bool_decide_eq_true Hinh%bool_decide_eq_true].
  simpl in Hnd. apply NoDup_cons in Hnd as [Hnin Hnd].
  change (field_issues h path o ((k, fs) :: shape)) with
    ((field_result h path o (k, fs)).1 ++ field_issues h path o shape)%list in Hi.
  change (field_pairs h path o ((k, fs) :: shape)) with
    ((k, (field_result h path o (k, fs)).2, (field_of o k).2) :: field_pairs h path o shape).
  apply app_eq_nil in Hi as [H1 Hi].
  assert (Hproto : String.eqb k "__proto__" = false).
  { apply String.eqb_neq. intros ->. apply Hinh. simpl. set_solver. }
  assert (Hfresh : k ∉ map fst acc) by (apply Hacc; simpl; set_solver).
  assert (Hrest : forall k', k' ∈ map fst shape -> k' ∉ map fst (acc ++ [(k, (field_of o k).1)])%list).
  { intros k' Hk'. rewrite map_app. simpl. rewrite elem_of_app, list_elem_of_singleton.
    intros [Hin| ->].
    - apply (Hacc k'); [simpl; set_solver|exact Hin].
    - by apply Hnin. }
  unfold field_result, check_field in *.
  destruct fs; cbn in Ht; try discriminate; injection Ht as <-; simpl in H1 |- *;
    destruct (field_of o k).1 as [[]|l'] eqn:Hv; simpl in H1 |- *;
    try (destruct (h !! l') as [[? [] ?]|]; discriminate); try discriminate;
    cbn [merge_props]; rewrite Hproto; simpl;
    rewrite set_prop_list_fresh, IH by done; by rewrite <- app_assoc.
Qed.

(** A flat record schema of primitive fields accepts an object with
    no issue by returning a fresh ordinary object with exactly the shape's
    keys, in the shape's order, holding the input's values: keys of the
    input outside the shape are dropped (the [strip] policy), and the
    input object is not modified. *)
Theorem zod_parse_object_ok shape l o s :
  heap s !! l = Some o -> (forall es, o_kind o <> KArray es) ->
  forallb prim_key_ok shape = true -> NoDup (map fst shape) ->
  field_issues (heap s) [] o shape = [] ->
  zod_parse (ZObject shape) (VObj l) s =
    (with_objs s [mkObj CObject KOrdinary (map (fun kf => (kf.1, (field_of o kf.1).1)) shape)],
     ROk (VObj (length (heap s)))).
Proof.
  intros Hl Hk Hs Hnd Hi. unfold zod_parse.
  rewrite (bind_ok _ _ _ _ _ (zparse_object_prim_run _ _ _ _ _ Hl Hk Hs)).
  rewrite Hi, bool_decide_true by done. simpl.
  by rewrite (merge_props_valid _ _ _ _ [] Hs Hnd) by set_solver.
Qed.

Lemma zod_parse_object_ok_witness :
  zod_parse (ZObject [("name", ZString); ("age", ZNumber)]) (VObj 0) (mkState [data_object] []) =
    (mkState [data_object; mkObj CObject KOrdinary [("name", VPrim (PStr "John Doe"));
                                                    ("age", VPrim (PNum 42))]] [],
     ROk (VObj 1)).
Proof.
  exact (zod_parse_object_ok [("name", ZString); ("age", ZNumber)] 0 data_object
           (mkState [data_object] []) eq_refl ltac:(intros ?; discriminate) eq_refl
           ltac:(by_decide) eq_refl).
Defined.

(** A flat record parse that finds any issue throws a [ZodError]
    carrying all of them (not only the first), each tagged with its
    field's path. *)
Theorem zod_parse_object_error shape l o s :
  heap s !! l = Some o -> (forall es, o_kind o <> KArray es) ->
  forallb prim_key_ok shape = true -> field_issues (heap s) [] o shape <> [] ->
  exists s', zod_parse (ZObject shape) (VObj l) s =
             (s', RThrow (ZodError (field_issues (heap s) [] o shape))).
Proof.
  intros Hl Hk Hs Hi. eexists. unfold zod_parse.
  rewrite (bind_ok _ _ _ _ _ (zparse_object_prim_run _ _ _ _ _ Hl Hk Hs)).
  by rewrite bool_decide_false.
Qed.

Lemma zod_parse_object_error_witness :
  exists s', zod_parse (ZObject [("name", ZString); ("age", ZNumber)]) (VObj 0)
    (mkState [mkObj CObject KOrdinary [("name", VPrim (PStr "John Doe"));
                                       ("age", VPrim (PStr "not a number"))]] []) =
    (s', RThrow (ZodError [mkIssue ["age"] "number" "string"])).
Proof.
  exact (zod_parse_object_error [("name", ZString); ("age", ZNumber)] 0
           (mkObj CObject KOrdinary [("name", VPrim (PStr "John Doe"));
                                     ("age", VPrim (PStr "not a number"))])
           (mkState [mkObj CObject KOrdinary [("name", VPrim (PStr "John Doe"));
                                              ("age", VPrim (PStr "not a number"))]] [])
           eq_refl ltac:(intros ?; discriminate) eq_refl ltac:(discriminate)).
Defined.

(** ** The module's schema on the module's data *)

(** [makePrivate] of a primitive schema on a primitive of the expected
    type: the parse succeeds with a fresh wrapper. *)
Lemma zparse_private_prim sch t path p c k s :
  prim_check sch = Some t -> prim_type_name p = t -> wrapper_of p = Some (c, k) ->
  zparse (makePrivate sch) path (VPrim p) s =
    (with_objs s [mkObj (CPrivate c) k []], ROk ([], Some (VObj (length (heap s))))).
Proof.
  intros Hsch Hp Hw. cbn [zparse makePrivate].
  rewrite (bind_ok _ _ _ _ _ (zparse_prim_run _ _ _ _ _ Hsch)).
  unfold check_field. simpl. rewrite Hp, String.eqb_refl. simpl.
  unfold makePrivate_transform. simpl.
  destruct p; try discriminate; simpl in Hp; subst t;
    rewrite (bind_ok _ _ _ _ _ (makePrivateValue_prim_run _ _ _ _ Hw)); reflexivity.
Qed.

Definition user_record (secret : value) : obj :=
  mkObj CObject KOrdinary
    [("name", VPrim (PStr "John Doe")); ("age", VPrim (PNum 42));
     ("super_secret_property", secret)].

Lemma UserSchema_zparse_data s l :
  heap s !! l = Some data_object ->
  zparse UserSchema [] (VObj l) s =
    (with_objs s [mkObj (CPrivate CBoolean) (KBoolean false) [];
                  user_record (VObj (length (heap s)))],
     ROk ([], Some (VObj (S (length (heap s)))))).
Proof.
  intros Hl. unfold UserSchema.
  rewrite (zparse_object_run _ _ _ _ _ Hl) by discriminate.
  rewrite (bind_ok _ _ _ _ _ (zparse_fields_cons_run _ _ _ _ _ _ _ _ _ _ _ _
    (read_field_run _ _ _ "name" Hl ltac:(by_decide)) (zparse_prim_run ZString "string" _ _ _ eq_refl)
    (zparse_fields_cons_run _ _ _ _ _ _ _ _ _ _ _ _
      (read_field_run _ _ _ "age" Hl ltac:(by_decide)) (zparse_prim_run ZNumber "number" _ _ _ eq_refl)
      (zparse_fields_cons_run _ _ _ _ _ _ _ _ _ _ _ _
        (read_field_run _ _ _ "super_secret_property" Hl ltac:(by_decide))
        (zparse_private_prim ZBoolean "boolean" _ (PBool false) _ _ _ eq_refl eq_refl eq_refl)
        (zparse_fields_nil _ _ _ _))))).
  rewrite (bind_ok _ _ _ _ _ (merge_object_run _ _)). simpl.
  rewrite with_objs_app, length_app, Nat.add_1_r. reflexivity.
Qed.

Lemma zparse_private_invalid sch t path v s :
  prim_check sch = Some t -> String.eqb (parsed_type (heap s) v) t = false ->
  zparse (makePrivate sch) path v s =
    (s, ROk ([mkIssue path t (parsed_type (heap s) v)], None)).
Proof.
  intros Hsch Hv. cbn [zparse makePrivate].
  rewrite (bind_ok _ _ _ _ _ (zparse_prim_run _ _ _ _ _ Hsch)).
  unfold check_field. by rewrite Hv.
Qed.

(** C1: [UserSchema.parse(data)] succeeds; the record it returns
    serializes with [JSON.stringify] as [{"name":"John Doe","age":42}]
    ([super_secret_property] is absent), while its
    [super_secret_property] is still loosely equal to [false] in memory. *)
Theorem UserSchema_parse_data s l :
  heap s !! l = Some data_object ->
  exists s' r secret,
    zod_parse UserSchema (VObj l) s = (s', ROk r) /\
    json_stringify (heap s') r = ROk (Some (JObj [("name", JStr "John Doe"); ("age", JNum 42)])) /\
    get_prop r "super_secret_property" s' = (s', ROk secret) /\
    loose_eq (heap s') secret (VPrim (PBool false)) = Some true.
Proof.
  intros Hl. do 3 eexists. split; [|split; [|split]].
  - unfold zod_parse. by rewrite (bind_ok _ _ _ _ _ (UserSchema_zparse_data _ _ Hl)).
  - unfold json_stringify.
    assert (Hlen : length (heap (with_objs s [mkObj (CPrivate CBoolean) (KBoolean false) [];
                                             user_record (VObj (length (heap s)))]))
                   = S (S (length (heap s)))) by (simpl; rewrite length_app; simpl; lia).
    rewrite Hlen. cbn [serialize]. rewrite lookup_with_objs_second.
    cbn [user_record o_ctor o_kind o_props is_private_ctor]. rewrite decide_False by set_solver.
    cbn [ser_members].
    by rewrite lookup_with_objs_first.
  - unfold get_prop, bind, read. by rewrite lookup_with_objs_second.
  - unfold loose_eq. by rewrite lookup_with_objs_first.
Qed.

Lemma UserSchema_parse_data_witness :
  exists s' r secret,
    zod_parse UserSchema (VObj 0) (mkState [data_object] []) = (s', ROk r) /\
    json_stringify (heap s') r = ROk (Some (JObj [("name", JStr "John Doe"); ("age", JNum 42)])) /\
    get_prop r "super_secret_property" s' = (s', ROk secret) /\
    loose_eq (heap s') secret (VPrim (PBool false)) = Some true.
Proof. exact (UserSchema_parse_data (mkState [data_object] []) 0 eq_refl). Defined.

(** C24: the parse is not idempotent: parsing the record returned by
    [UserSchema.parse(data)] again with [UserSchema] throws a [ZodError]
    whose only issue is [super_secret_property], expected [boolean],
    received [object] (the wrapper is a [Boolean] object). *)
Theorem UserSchema_reparse_fails s l :
  heap s !! l = Some data_object ->
  exists s', (r <- zod_parse UserSchema (VObj l) ;; zod_parse UserSchema r) s =
             (s', RThrow (ZodError [mkIssue ["super_secret_property"] "boolean" "object"])).
Proof.
  intros Hl. eexists. unfold zod_parse at 1.
  rewrite bind_assoc, (bind_ok _ _ _ _ _ (UserSchema_zparse_data _ _ Hl)). simpl.
  set (s1 := with_objs s _).
  assert (Hr : heap s1 !! S (length (heap s)) = Some (user_record (VObj (length (heap s)))))
    by (unfold s1; apply lookup_with_objs_second).
  assert (Hw : parsed_type (heap s1) (VObj (length (heap s))) = "object")
    by (unfold parsed_type, s1; by rewrite lookup_with_objs_first).
  assert (Hw' : String.eqb (parsed_type (heap s1)
             (field_of (user_record (VObj (length (heap s)))) "super_secret_property").1)
             "boolean" = false).
  { change (field_of _ _).1 with (VObj (length (heap s))). by rewrite Hw. }
  eassert (Hz : zparse UserSchema [] (VObj (S (length (heap s)))) s1 =
                 (_, ROk ([mkIssue ["super_secret_property"] "boolean" "object"], None))).
  { unfold UserSchema. rewrite (zparse_object_run _ _ _ _ _ Hr ltac:(discriminate)).
    rewrite (bind_ok _ _ _ _ _ (zparse_fields_cons_run _ _ _ _ _ _ _ _ _ _ _ _
      (read_field_run _ _ _ "name" Hr ltac:(by_decide)) (zparse_prim_run ZString "string" _ _ _ eq_refl)
      (zparse_fields_cons_run _ _ _ _ _ _ _ _ _ _ _ _
        (read_field_run _ _ _ "age" Hr ltac:(by_decide)) (zparse_prim_run ZNumber "number" _ _ _ eq_refl)
        (zparse_fields_cons_run _ _ _ _ _ _ _ _ _ _ _ _
          (read_field_run _ _ _ "super_secret_property" Hr ltac:(by_decide))
          (zparse_private_invalid ZBoolean "boolean" _ _ _ eq_refl Hw')
          (zparse_fields_nil _ _ _ _))))).
    rewrite (bind_ok _ _ _ _ _ (merge_object_run _ _)). simpl.
    rewrite lookup_app_r, Nat.sub_diag by lia. reflexivity. }
  unfold zod_parse. rewrite bind_ret_l, (bind_ok _ _ _ _ _ Hz). reflexivity.
Qed.

Lemma UserSchema_reparse_fails_witness :
  exists s', (r <- zod_parse UserSchema (VObj 0) ;; zod_parse UserSchema r) (mkState [data_object] []) =
             (s', RThrow (ZodError [mkIssue ["super_secret_property"] "boolean" "object"])).
Proof. exact (UserSchema_reparse_fails (mkState [data_object] []) 0 eq_refl). Defined.

Lemma lookup_prop_not_key ps k : k ∉ map fst ps -> lookup_prop ps k = None.
Proof.
  induction ps as [|[k' v'] ps IH]; intros Hk; [done|]. simpl in *.
  rewrite not_elem_of_cons in Hk. destruct Hk as [Hne Hk].
  rewrite (proj2 (String.eqb_neq k k') Hne). by apply IH.
Qed.

Lemma prim_keys_not_inherited shape k :
  forallb prim_key_ok shape = true -> k ∈ inherited_names -> k ∉ map fst shape.
Proof.
  intros Hs Hk Hin. apply list_elem_of_In, in_map_iff in Hin as [[k' fs] [<- Hin]].
  rewrite forallb_forall in Hs. apply Hs in Hin.
  apply andb_true_iff in Hin as [_ Hin%bool_decide_eq_true]. by apply Hin.
Qed.

(** C23: [makePrivate] around a record schema loses the record: the
    parsed object is handed to [makePrivateValue], whose [Object] super
    call ignores it, so a valid input parses to an empty object of the
    private class (every field, valid as it was, is gone from memory). *)
Theorem makePrivate_object_schema_empty shape l o s :
  heap s !! l = Some o -> (forall es, o_kind o <> KArray es) ->
  forallb prim_key_ok shape = true -> NoDup (map fst shape) ->
  field_issues (heap s) [] o shape = [] ->
  exists s' l', zod_parse (makePrivate (ZObject shape)) (VObj l) s = (s', ROk (VObj l')) /\
                heap s' !! l' = Some (mkObj (CPrivate CObject) KOrdinary []).
Proof.
  intros Hl Hk Hs Hnd Hi. do 2 eexists. split; [|apply lookup_with_objs_second].
  unfold zod_parse, makePrivate. rewrite zparse_effects, bind_assoc.
  rewrite (bind_ok _ _ _ _ _ (zparse_object_prim_run _ _ _ _ _ Hl Hk Hs)).
  rewrite Hi, bool_decide_true by done. simpl.
  rewrite (merge_props_valid _ _ _ _ [] Hs Hnd) by set_solver.
  set (rec := mkObj CObject KOrdinary _).
  assert (Hr : heap (with_objs s [rec]) !! length (heap s) = Some rec) by apply lookup_with_objs_first.
  unfold makePrivate_transform. simpl.
  assert (Hc : lookup_prop (o_props rec) "constructor" = None).
  { apply lookup_prop_not_key. simpl. rewrite map_map.
    apply prim_keys_not_inherited; [done|by_decide]. }
  rewrite bind_assoc, (bind_ok _ _ _ _ _ (makePrivateValue_obj_run _ _ _ Hr Hc)).
  rewrite bind_ret_l. unfold with_objs. simpl.
  by rewrite <- app_assoc, length_app, Nat.add_1_r.
Qed.

Lemma makePrivate_object_schema_empty_witness :
  exists s' l', zod_parse (makePrivate (ZObject [("age", ZNumber)])) (VObj 0) (mkState [data_object] []) =
                (s', ROk (VObj l')) /\
                heap s' !! l' = Some (mkObj (CPrivate CObject) KOrdinary []).
Proof.
  exact (makePrivate_object_schema_empty [("age", ZNumber)] 0 data_object (mkState [data_object] [])
           eq_refl ltac:(intros ?; discriminate) eq_refl ltac:(by_decide) eq_refl).
Defined.

(** C14: [UserSchema.parse] on an object whose [age] is not a number
    (the other two fields valid) throws a [ZodError] whose only issue
    names [age], with the type received; [name] and
    [super_secret_property] are not reported.  The [makePrivate]
    transform of the valid [super_secret_property] has still run: the
    heap gains its wrapper and the partly filled result object. *)
Theorem UserSchema_invalid_age s l o nm a b :
  heap s !! l = Some o -> (forall es, o_kind o <> KArray es) ->
  (field_of o "name").1 = VPrim (PStr nm) -> (field_of o "age").1 = VPrim a ->
  (forall n, a <> PNum n) -> (field_of o "super_secret_property").1 = VPrim (PBool b) ->
  zod_parse UserSchema (VObj l) s =
    (with_objs s [mkObj (CPrivate CBoolean) (KBoolean b) [];
                  mkObj CObject KOrdinary [("name", VPrim (PStr nm))]],
     RThrow (ZodError [mkIssue ["age"] "number" (prim_type_name a)])).
Proof.
  intros Hl Hk Hn Ha Hna Hb.
  assert (Hpriv : zparse (makePrivate ZBoolean) ([] ++ ["super_secret_property"])%list
                    (field_of o "super_secret_property").1 s =
                  (with_objs s [mkObj (CPrivate CBoolean) (KBoolean b) []],
                   ROk ([], Some (VObj (length (heap s)))))).
  { rewrite Hb. exact (zparse_private_prim ZBoolean "boolean" _ (PBool b) _ _ _ eq_refl eq_refl eq_refl). }
  unfold zod_parse, UserSchema, bind at 1. rewrite (zparse_object_run _ _ _ _ _ Hl Hk).
  rewrite (bind_ok _ _ _ _ _ (zparse_fields_cons_run _ _ _ _ _ _ _ _ _ _ _ _
    (read_field_run _ _ _ "name" Hl ltac:(by_decide)) (zparse_prim_run ZString "string" _ _ _ eq_refl)
    (zparse_fields_cons_run _ _ _ _ _ _ _ _ _ _ _ _
      (read_field_run _ _ _ "age" Hl ltac:(by_decide)) (zparse_prim_run ZNumber "number" _ _ _ eq_refl)
      (zparse_fields_cons_run _ _ _ _ _ _ _ _ _ _ _ _
        (read_field_run _ _ _ "super_secret_property" Hl ltac:(by_decide)) Hpriv
        (zparse_fields_nil _ _ _ _))))).
  rewrite (bind_ok _ _ _ _ _ (merge_object_run _ _)).
  unfold check_field. rewrite Hn, Ha. rewrite with_objs_app.
  destruct a as [| | |n|]; [| | |by destruct (Hna n)|]; reflexivity.
Qed.

(** The input of the specification's invalid example. *)
Definition bad_age_object : obj :=
  mkObj CObject KOrdinary [("name", VPrim (PStr "John Doe")); ("age", VPrim (PStr "not a number"));
                           ("super_secret_property", VPrim (PBool false))].

Lemma UserSchema_invalid_age_witness :
  zod_parse UserSchema (VObj 0) (mkState [bad_age_object] []) =
    (mkState [bad_age_object; mkObj (CPrivate CBoolean) (KBoolean false) [];
              mkObj CObject KOrdinary [("name", VPrim (PStr "John Doe"))]] [],
     RThrow (ZodError [mkIssue ["age"] "number" "string"])).
Proof.
  apply (UserSchema_invalid_age (mkState [bad_age_object] []) 0 bad_age_object
           "John Doe" (PStr "not a number") false).
  - reflexivity.
  - intros ?; discriminate.
  - reflexivity.
  - reflexivity.
  - intros ? ?; discriminate.
  - reflexivity.
Defined.

(** ** Footprint of parsing *)

(** Induction on schemas, with the hypothesis for every field schema of
    an object shape. *)
Lemma schema_ind' (P : schema -> Prop) :
  P ZString -> P ZNumber -> P ZBoolean ->
  (forall shape, Forall (fun kf => P kf.2) shape -> P (ZObject shape)) ->
  (forall inner t, P inner -> P (ZEffects inner t)) ->
  forall sch, P sch.
Proof.
  intros Hs Hn Hb Ho He. fix IH 1. intros [| | |shape|inner t].
  - exact Hs.
  - exact Hn.
  - exact Hb.
  - apply Ho. induction shape as [|kf shape IHs]; constructor; [apply IH|exact IHs].
  - apply He, IH.
Qed.

Lemma quiet_zparse_fields zp shape path v :
  Forall (fun kf => forall path' w, quiet (zp kf.2 path' w)) shape ->
  quiet (zparse_fields zp shape path v).
Proof.
  induction 1 as [|[k fs] shape Hfs _ IH]; simpl; [apply quiet_ret|].
  unfold read_field. solve_quiet.
Qed.

(** [schema.parse] never emits an event: parsing fetches nothing and
    logs nothing, whatever the schema and the input. *)
Lemma quiet_zparse sch : forall path v, quiet (zparse sch path v).
Proof.
  induction sch as [| | |shape IH|inner t IH] using schema_ind'; intros path v; simpl.
  1-3: unfold parse_type; solve_quiet.
  - apply quiet_bind; [apply quiet_get_state|intros s].
    case_match; [|apply quiet_ret].
    apply quiet_bind; [apply quiet_zparse_fields, IH|intros p].
    unfold merge_object. apply quiet_bind; [|intros; apply quiet_ret].
    apply quiet_bind; [apply quiet_alloc|intros l]. generalize (VObj l).
    induction (p.2) as [|[[k [x|]] present] pairs IHp]; intros target; simpl; solve_quiet.
  - apply quiet_bind; [apply IH|intros [iss [x|]]]; [|apply quiet_ret].
    destruct t. simpl. solve_quiet.
Qed.

Lemma quiet_zod_parse sch v : quiet (zod_parse sch v).
Proof. unfold zod_parse. apply quiet_bind; [apply quiet_zparse|]. solve_quiet. Qed.

#[export] Hint Resolve quiet_zparse quiet_zod_parse : js.

(** ** [UserSchema] against the validator of the specification *)

(** Section 4.2 of the specification: [validate] of a record of basic
    type checks, some marked private, on an input read field by field:
    every failing field with its path, or every field's value with its
    privacy mark. *)
Definition spec_validate (typ : value -> string) (get : string -> value)
  (fields : list (string * string * bool)) : list zissue + list (string * value * bool) :=
  match flat_map (fun '(k, t, _) => if String.eqb (typ (get k)) t then []
                                   else [mkIssue [k] t (typ (get k))]) fields with
  | [] => inr (map (fun '(k, _, priv) => (k, get k, priv)) fields)
  | errs => inl errs
  end.

(** The record of the specification's example, as [UserSchema] declares
    it. *)
Definition user_spec_fields : list (string * string * bool) :=
  [("name", "string", false); ("age", "number", false); ("super_secret_property", "boolean", true)].

(** A field of the parsed record: the input's value, or for a private
    field a fresh [PrivateValue] object whose [valueOf] is that value. *)
Definition field_refines (h : list obj) (spec : string * value * bool) (kv : string * value) : Prop :=
  let '(k, v, priv) := spec in
  kv.1 = k /\
  if priv then exists l o, kv.2 = VObj l /\ h !! l = Some o /\ is_private_ctor (o_ctor o) = true /\
                             obj_to_primitive o = (match v with VPrim p => Some p | _ => None end)
  else kv.2 = v.

Lemma parsed_type_string h v : String.eqb (parsed_type h v) "string" = true -> exists t, v = VPrim (PStr t).
Proof.
  destruct v as [[]|l]; try discriminate; eauto.
  unfold parsed_type. by destruct (h !! l) as [[? [] ?]|].
Qed.

Lemma parsed_type_number h v : String.eqb (parsed_type h v) "number" = true -> exists n, v = VPrim (PNum n).
Proof.
  destruct v as [[]|l]; try discriminate; eauto.
  unfold parsed_type. by destruct (h !! l) as [[? [] ?]|].
Qed.

Lemma parsed_type_boolean h v : String.eqb (parsed_type h v) "boolean" = true -> exists b, v = VPrim (PBool b).
Proof.
  destruct v as [[]|l]; try discriminate; eauto.
  unfold parsed_type. by destruct (h !! l) as [[? [] ?]|].
Qed.

(** [makePrivate(z.boolean())] on any value. *)
Lemma zparse_private_boolean path v s :
  zparse (makePrivate ZBoolean) path v s =
    if String.eqb (parsed_type (heap s) v) "boolean"
    then (with_objs s [mkObj (CPrivate CBoolean) (KBoolean (to_boolean v)) []],
          ROk ([], Some (VObj (length (heap s)))))
    else (s, ROk ([mkIssue path "boolean" (parsed_type (heap s) v)], None)).
Proof.
  destruct (String.eqb (parsed_type (heap s) v) "boolean") eqn:E.
  - destruct (parsed_type_boolean _ _ E) as [b ->].
    exact (zparse_private_prim ZBoolean "boolean" path (PBool b) _ _ s eq_refl eq_refl eq_refl).
  - exact (zparse_private_invalid ZBoolean "boolean" path v s eq_refl E).
Qed.

(** C8: refinement of the specification's [validate] (section 4.2):
    on every input object, [UserSchema.parse] throws a [ZodError]
    carrying exactly the failures [validate] reports (every failing
    field, in order, with its path), or returns a fresh ordinary object
    (absent from the heap before the call) holding, field by field, the
    input's value, or for
    [super_secret_property] a [PrivateValue] object that converts back
    to it. *)
Theorem UserSchema_refines_validate s l o :
  heap s !! l = Some o -> (forall es, o_kind o <> KArray es) ->
  match spec_validate (parsed_type (heap s)) (fun k => (field_of o k).1) user_spec_fields with
  | inl errs => exists s', zod_parse UserSchema (VObj l) s = (s', RThrow (ZodError errs))
  | inr fields => exists s' r ps, zod_parse UserSchema (VObj l) s = (s', ROk (VObj r)) /\
      heap s !! r = None /\ heap s' !! r = Some (mkObj CObject KOrdinary ps) /\ Forall2 (field_refines (heap s')) fields ps
  end.
Proof.
  intros Hl Hk.
  pose proof (zparse_private_boolean ([] ++ ["super_secret_property"])%list
                (field_of o "super_secret_property").1 s) as Hpriv.
  unfold spec_validate, user_spec_fields. cbn [flat_map].
  destruct (String.eqb (parsed_type (heap s) (field_of o "name").1) "string") eqn:Hn;
  destruct (String.eqb (parsed_type (heap s) (field_of o "age").1) "number") eqn:Ha;
  destruct (String.eqb (parsed_type (heap s) (field_of o "super_secret_property").1) "boolean") eqn:Hb;
  cbn [app];
  unfold zod_parse, UserSchema, bind at 1; rewrite (zparse_object_run _ _ _ _ _ Hl Hk);
  (rewrite (bind_ok _ _ _ _ _ (zparse_fields_cons_run _ _ _ _ _ _ _ _ _ _ _ _
    (read_field_run _ _ _ "name" Hl ltac:(by_decide)) (zparse_prim_run ZString "string" _ _ _ eq_refl)
    (zparse_fields_cons_run _ _ _ _ _ _ _ _ _ _ _ _
      (read_field_run _ _ _ "age" Hl ltac:(by_decide)) (zparse_prim_run ZNumber "number" _ _ _ eq_refl)
      (zparse_fields_cons_run _ _ _ _ _ _ _ _ _ _ _ _
        (read_field_run _ _ _ "super_secret_property" Hl ltac:(by_decide)) Hpriv
        (zparse_fields_nil _ _ _ _))))));
  rewrite (bind_ok _ _ _ _ _ (merge_object_run _ _)); unfold check_field; rewrite ?Hn, ?Ha;
  cbn [app]; try (eexists; reflexivity).
  destruct (parsed_type_string _ _ Hn) as [t Et], (parsed_type_number _ _ Ha) as [n En],
    (parsed_type_boolean _ _ Hb) as [b Eb].
  rewrite Et, En, Eb. cbn. do 3 eexists. split; [reflexivity|]. split.
  { apply lookup_ge_None. unfold with_objs; cbn [heap]. rewrite length_app. cbn [length]. lia. }
  split.
  - exact (lookup_with_objs_first (with_objs s [_]) _ []).
  - rewrite Et, En, Eb. repeat constructor.
    exists (length (heap s)), (mkObj (CPrivate CBoolean) (KBoolean b) []).
    split; [done|]. split; [|done]. unfold with_objs; cbn [heap].
    apply lookup_app_l_Some, lookup_app_last.
Qed.

Lemma UserSchema_refines_validate_witness :
  match spec_validate (parsed_type [bad_age_object]) (fun k => (field_of bad_age_object k).1)
          user_spec_fields with
  | inl errs => exists s', zod_parse UserSchema (VObj 0) (mkState [bad_age_object] []) =
                             (s', RThrow (ZodError errs))
  | inr fields => exists s' r ps, zod_parse UserSchema (VObj 0) (mkState [bad_age_object] []) =
                                    (s', ROk (VObj r)) /\
      heap (mkState [bad_age_object] []) !! r = None /\ heap s' !! r = Some (mkObj CObject KOrdinary ps) /\ Forall2 (field_refines (heap s')) fields ps
  end.
Proof.
  apply (UserSchema_refines_validate (mkState [bad_age_object] []) 0 bad_age_object).
  - reflexivity.
  - intros ?; discriminate.
Defined.
