(* ===== verification/Query.v ===== *)
(** * Query: [DatabaseQuery], [db.file] and the thenable protocol

    Models lines 53-92 of [src/src/routes/_index/+middleware.ts].  A
    [DatabaseQuery] holds a file name, a reference to its parameter
    object and an optional schema; [into] (lines 73-75) builds a new query
    that shares the file name and the parameter object; [fetch] (lines
    77-84) reads the module constant [data] and parses it when the schema
    is a zod schema; [then] (lines 66-71) calls [fetch()] every time it is
    invoked, so every [await] of a query runs a new fetch.  [db.file]
    (lines 88-92) allocates a fresh [{}] when no parameters are given.
    [fetch] is split at its [await data] into [fetch_start] (the
    synchronous part, which executes the fetch) and [fetch_resume] (the
    rest), which [Concurrency] runs as separate jobs.

    Each execution of [fetch] emits the ghost event [EFetch]: the trace
    counts executions, which the specification requires to be at most
    one per query.  The query object's own identity is not modelled (no
    code reads or writes its fields after construction); the objects it
    refers to ([params], [data], the parse results) live in the heap.

    [Thenable] is the interface [await] relies on; [spec_resolve] is the
    memoised deferred query of the specification (section 4.3), against
    which the code is compared. *)

From S2P Require Import Prelude JsValue Private Json Zod.
Local Open Scope string_scope.
Local Open Scope js_scope.

(** The [schema] field: a zod schema, or any other value ([undefined]
    when the constructor was given none). *)
Inductive schema_val : Type :=
  | SZod (s : schema)
  | SPlain (v : value).

(** Lines 53-64: the fields of a [DatabaseQuery], set by its constructor. *)
Record DatabaseQuery : Type := mkQuery {
  fileName : string;
  params : value;
  qschema : schema_val
}.

(** Lines 88-92: [db.file(fileName, params = {})]: the default parameter
    is a fresh empty object, made when the argument is absent or
    [undefined]. *)
Definition db_file (fileName : string) (params : option value) : M DatabaseQuery :=
  p <- match params with
       | Some v => if decide (v = undefined) then new_object else ret v
       | None => new_object
       end ;;
  ret (mkQuery fileName p (SPlain undefined)).

(** Lines 73-75: [into(schema)]. *)
Definition into (q : DatabaseQuery) (s : schema_val) : DatabaseQuery :=
  mkQuery (fileName q) (params q) s.

Section WithData.
(** The value bound to the module constant [data] (lines 41-45). *)
Context (data : value).

(** Lines 77-79: the synchronous part of [fetch()], up to its first
    [await]: the execution of the fetch, recorded as an event. *)
Definition fetch_start (q : DatabaseQuery) : M unit :=
  emit (EFetch (fileName q) (params q)).

(** Lines 79-84: the rest of [fetch()], run when [await data] resumes.
    [await data] resolves to [data] itself (it is not a thenable); the
    result is parsed only when the schema is a zod schema
    ([this.schema && this.schema instanceof z.ZodType]). *)
Definition fetch_resume (q : DatabaseQuery) : M value :=
  result <- ret data ;;
  match qschema q with
  | SZod sch => zod_parse sch result
  | SPlain _ => ret result
  end.

(** Lines 77-84: [fetch()], run to completion. *)
Definition fetch (q : DatabaseQuery) : M value :=
  fetch_start q ;; fetch_resume q.

(** Lines 66-71: [then(onfulfilled, onrejected)]. *)
Definition query_then {A} (q : DatabaseQuery) (onfulfilled : value -> M A)
  (onrejected : js_error -> M A) : M A :=
  handle (fetch q) onfulfilled onrejected.

End WithData.

(** What [await] needs of a value: a [then] method taking the two
    callbacks. *)
Class Thenable (T : Type) := {
  then_method : T -> forall A, (value -> M A) -> (js_error -> M A) -> M A
}.

(** [await t] on a thenable: [t.then(resolve, reject)], continuing with
    the value it resolves to or throwing what it rejects with. *)
Definition await_thenable {T} `{Thenable T} (t : T) : M value :=
  then_method t value ret throw.

(** [DatabaseQuery implements PromiseLike<any>] (line 53), for a given
    binding of [data]. *)
Definition query_thenable (data : value) : Thenable DatabaseQuery :=
  {| then_method := fun q A => @query_then data A q |}.

(** [await q] for a query. *)
Definition await_query (data : value) (q : DatabaseQuery) : M value :=
  @await_thenable _ (query_thenable data) q.

(** [n] successive [await q] of the same query, collecting the values. *)
Fixpoint await_n (data : value) (n : nat) (q : DatabaseQuery) : M (list value) :=
  match n with
  | 0 => ret []
  | S n' => v <- await_query data q ;; vs <- await_n data n' q ;; ret (v :: vs)
  end.

(** ** The deferred query of the specification

    Section 4.3: a query is [Unexecuted], then [Resolved] or [Failed]
    after its first resolution; a later resolution returns the recorded
    outcome without fetching.  [spec_resolve] is that memoised
    resolution, over the same execution [run] as the code's. *)
Inductive qstate : Type :=
  | Unexecuted
  | Resolved (v : value)
  | Failed (e : js_error).

Definition spec_resolve (run : M value) (st : qstate) : St state js_error (qstate * value) :=
  fun s =>
    match st with
    | Unexecuted =>
        match run s with
        | (s', ROk v) => (s', ROk (Resolved v, v))
        | (s', RThrow e) => (s', RThrow e)
        | (s', RStuck) => (s', RStuck)
        end
    | Resolved v => (s, ROk (st, v))
    | Failed e => (s, RThrow e)
    end.

(** [n] successive resolutions in the specification, from [st]. *)
Fixpoint spec_resolve_n (run : M value) (n : nat) (st : qstate) : M (list value) :=
  match n with
  | 0 => ret []
  | S n' => p <- spec_resolve run st ;; vs <- spec_resolve_n run n' p.1 ;; ret (p.2 :: vs)
  end.

(** The number of fetch executions in a trace. *)
Definition fetch_count (tr : list event) : nat :=
  length (List.filter (fun e => match e with EFetch _ _ => true | _ => false end) tr).

(** ** Theorems *)

Lemma await_query_fetch data q s : await_query data q s = fetch data q s.
Proof.
  unfold await_query, await_thenable. cbn [then_method query_thenable].
  unfold query_then, handle. by destruct (fetch data q s) as [s' []].
Qed.

Lemma fetch_plain data q v s :
  qschema q = SPlain v ->
  fetch data q s = (mkState (heap s) (trace s ++ [EFetch (fileName q) (params q)]), ROk data).
Proof. intros Hq. unfold fetch. cbn. by rewrite Hq. Qed.

Lemma fetch_count_app tr1 tr2 : fetch_count (tr1 ++ tr2) = fetch_count tr1 + fetch_count tr2.
Proof. unfold fetch_count. by rewrite List.filter_app, length_app. Qed.

Lemma fetch_count_repeat f p n : fetch_count (repeat (EFetch f p) n) = n.
Proof. induction n as [|n IH]; [done|]. unfold fetch_count in *. simpl. by rewrite IH. Qed.

(** C6: [then] is not memoised: [n] successive [await]s of one query
    without a zod schema execute [fetch] [n] times (the trace gains [n]
    fetch events) and all resolve to the same shared [data] object, with
    the heap unchanged. *)
Theorem await_n_plain data q v n s :
  qschema q = SPlain v ->
  await_n data n q s =
    (mkState (heap s) (trace s ++ repeat (EFetch (fileName q) (params q)) n),
     ROk (repeat data n)).
Proof.
  intros Hq. revert s. induction n as [|n IH]; intros s; simpl.
  - by rewrite app_nil_r; destruct s.
  - rewrite (bind_ok _ _ _ _ _ (eq_trans (await_query_fetch _ _ _) (fetch_plain _ _ _ _ Hq))).
    rewrite (bind_ok _ _ _ _ _ (IH _)). simpl. by rewrite <- app_assoc.
Qed.

Lemma await_n_plain_witness :
  await_n (VObj 0) 2 (mkQuery "f.sql" (VObj 1) (SPlain undefined)) (mkState [] []) =
    (mkState [] [EFetch "f.sql" (VObj 1); EFetch "f.sql" (VObj 1)], ROk [VObj 0; VObj 0]).
Proof.
  exact (await_n_plain (VObj 0) (mkQuery "f.sql" (VObj 1) (SPlain undefined)) undefined 2
           (mkState [] []) eq_refl).
Defined.

Lemma spec_resolve_n_resolved run n v s :
  spec_resolve_n run n (Resolved v) s = (s, ROk (repeat v n)).
Proof.
  revert s. induction n as [|n IH]; intros s; [done|]. simpl.
  unfold bind at 1. simpl. rewrite (bind_ok _ _ _ _ _ (IH s)). done.
Qed.

Lemma spec_resolve_n_plain data q v n s :
  qschema q = SPlain v ->
  spec_resolve_n (fetch data q) (S n) Unexecuted s =
    (mkState (heap s) (trace s ++ [EFetch (fileName q) (params q)]), ROk (repeat data (S n))).
Proof.
  intros Hq. cbn [spec_resolve_n]. unfold bind at 1, spec_resolve.
  rewrite (fetch_plain _ _ _ _ Hq). cbn [fst snd].
  by rewrite (bind_ok _ _ _ _ _ (spec_resolve_n_resolved _ _ _ _)).
Qed.

(** C5: the code does not refine the memoised query of the
    specification: for [n >= 1] awaits of a query without a zod schema,
    the code executes [fetch] [n] times where the specification executes
    it once, both returning [n] times the same value. *)
Theorem await_n_vs_spec data q v n s :
  qschema q = SPlain v -> 1 <= n ->
  fetch_count (trace (await_n data n q s).1) = fetch_count (trace s) + n /\
  fetch_count (trace (spec_resolve_n (fetch data q) n Unexecuted s).1) = fetch_count (trace s) + 1 /\
  (await_n data n q s).2 = (spec_resolve_n (fetch data q) n Unexecuted s).2.
Proof.
  intros Hq Hn. destruct n as [|n]; [lia|].
  rewrite (await_n_plain _ _ _ _ _ Hq), (spec_resolve_n_plain _ _ _ _ _ Hq). cbn [fst snd trace].
  rewrite !fetch_count_app, fetch_count_repeat. split; [done|]. split; [|done].
  unfold fetch_count at 2. simpl. lia.
Qed.

Lemma await_n_vs_spec_witness :
  let q := mkQuery "f.sql" (VObj 1) (SPlain undefined) in
  fetch_count (trace (await_n (VObj 0) 3 q (mkState [] [])).1) = 3 /\
  fetch_count (trace (spec_resolve_n (fetch (VObj 0) q) 3 Unexecuted (mkState [] [])).1) = 1 /\
  (await_n (VObj 0) 3 q (mkState [] [])).2 =
    (spec_resolve_n (fetch (VObj 0) q) 3 Unexecuted (mkState [] [])).2.
Proof.
  exact (await_n_vs_spec (VObj 0) (mkQuery "f.sql" (VObj 1) (SPlain undefined)) undefined 3
           (mkState [] []) eq_refl ltac:(lia)).
Defined.

(** ** The two halves of [fetch] *)

Lemma fetch_start_run q s :
  fetch_start q s = (mkState (heap s) (trace s ++ [EFetch (fileName q) (params q)]), ROk tt).
Proof. reflexivity. Qed.

(** After its [await], [fetch] emits nothing: the fetch was recorded when
    it started. *)
Lemma quiet_fetch_resume data q : quiet (fetch_resume data q).
Proof. unfold fetch_resume. solve_quiet. Qed.

#[export] Hint Resolve quiet_fetch_resume : js.

(** The resumed half of a [UserSchema] query on the module's [data]: a
    fresh wrapper and a fresh record, appended to the heap. *)
Lemma fetch_resume_UserSchema q s :
  qschema q = SZod UserSchema -> heap s !! 0 = Some data_object ->
  fetch_resume (VObj 0) q s =
    (with_objs s [mkObj (CPrivate CBoolean) (KBoolean false) []; user_record (VObj (length (heap s)))],
     ROk (VObj (S (length (heap s))))).
Proof.
  intros Hq Hd. unfold fetch_resume. rewrite bind_ret_l, Hq. unfold zod_parse.
  by rewrite (bind_ok _ _ _ _ _ (UserSchema_zparse_data _ _ Hd)).
Qed.

(** [db.file(f)] without parameters: a fresh [{}] for them. *)
Lemma db_file_none_run f s :
  db_file f None s =
    (with_objs s [mkObj CObject KOrdinary []],
     ROk (mkQuery f (VObj (length (heap s))) (SPlain undefined))).
Proof. reflexivity. Qed.

(** [await q] for a [UserSchema] query on the module's [data]: one fetch
    event, then a fresh wrapper and a fresh record. *)
Lemma await_query_UserSchema q s :
  qschema q = SZod UserSchema -> heap s !! 0 = Some data_object ->
  await_query (VObj 0) q s =
    (with_objs (mkState (heap s) (trace s ++ [EFetch (fileName q) (params q)]))
       [mkObj (CPrivate CBoolean) (KBoolean false) []; user_record (VObj (length (heap s)))],
     ROk (VObj (S (length (heap s))))).
Proof.
  intros Hq Hd. rewrite await_query_fetch. unfold fetch.
  rewrite (bind_ok _ _ _ _ _ (fetch_start_run _ _)).
  by rewrite (fetch_resume_UserSchema _ (mkState (heap s) _) Hq Hd).
Qed.
