(* ===== verification/Concurrency.v ===== *)
(** * Concurrency: interleaved [await]s of one query

    Section 5 of the specification asks that concurrent [resolve()]s of
    one query coalesce onto a single execution.  In the code (lines
    66-84 of [src/src/routes/_index/+middleware.ts]) each [await q] is
    its own chain of jobs:
    - [Waiting]: the job that calls [q.then(resolve, reject)] is queued;
    - [Fetching]: [then] has called [fetch()], which has run up to
      [await data] ([fetch_start]: the fetch is executed) and is suspended;
    - [Settled r]: [fetch()] resumed and ran to completion
      ([fetch_resume]); its promise holds [r], the callback job is queued;
    - [Delivered r]: the callback passed [r] to the awaiting caller.
    A configuration is the phase of every [await] and the shared program
    state.  [cstep] lets any task take its next step, so the theorems
    hold for every interleaving the job queue can produce (the FIFO order
    of the engine included).  [step_task] is the same relation as a
    function of the task chosen, and [run_schedule] runs a schedule. *)

From S2P Require Import Prelude JsValue Private Json Zod Query.
Local Open Scope js_scope.

Inductive phase : Type :=
  | Waiting
  | Fetching
  | Settled (r : res js_error value)
  | Delivered (r : res js_error value).

Record config : Type := mkConfig {
  tasks : list phase;
  cstate : state
}.

Section Interleaving.
(** The binding of [data] and the query every task awaits. *)
Context (data : value) (q : DatabaseQuery).

Inductive cstep : config -> config -> Prop :=
  | cstep_then c i s' :
      tasks c !! i = Some Waiting -> fetch_start q (cstate c) = (s', ROk tt) ->
      cstep c (mkConfig (<[i := Fetching]> (tasks c)) s')
  | cstep_resume c i s' r :
      tasks c !! i = Some Fetching -> fetch_resume data q (cstate c) = (s', r) ->
      cstep c (mkConfig (<[i := Settled r]> (tasks c)) s')
  | cstep_deliver c i r :
      tasks c !! i = Some (Settled r) ->
      cstep c (mkConfig (<[i := Delivered r]> (tasks c)) (cstate c)).

(** The next step of task [i], if it has one. *)
Definition step_task (i : nat) (c : config) : option config :=
  match tasks c !! i with
  | Some Waiting =>
      match fetch_start q (cstate c) with
      | (s', ROk _) => Some (mkConfig (<[i := Fetching]> (tasks c)) s')
      | _ => None
      end
  | Some Fetching =>
      let '(s', r) := fetch_resume data q (cstate c) in
      Some (mkConfig (<[i := Settled r]> (tasks c)) s')
  | Some (Settled r) => Some (mkConfig (<[i := Delivered r]> (tasks c)) (cstate c))
  | Some (Delivered _) | None => None
  end.

(** Runs the tasks in the order the schedule names them. *)
Fixpoint run_schedule (sched : list nat) (c : config) : option config :=
  match sched with
  | [] => Some c
  | i :: rest => c' ← step_task i c; run_schedule rest c'
  end.

End Interleaving.

(** [n] awaits issued on the state [s]. *)
Definition init (n : nat) (s : state) : config := mkConfig (repeat Waiting n) s.

(** Tasks whose [then] job has run, i.e. that have called [fetch()]. *)
Definition is_started (p : phase) : nat := match p with Waiting => 0 | _ => 1 end.
Definition started (ts : list phase) : nat := sum_list_with is_started ts.

Definition is_delivered (p : phase) : bool := match p with Delivered _ => true | _ => false end.
Definition all_delivered (ts : list phase) : bool := forallb is_delivered ts.

(** The outcome a task holds once [fetch()] has completed. *)
Definition outcome (p : phase) : option (res js_error value) :=
  match p with Settled r | Delivered r => Some r | _ => None end.

(** ** The relation and the function agree *)

Lemma step_task_sound data q i c c' : step_task data q i c = Some c' -> cstep data q c c'.
Proof.
  unfold step_task. destruct (tasks c !! i) as [[| |r|r]|] eqn:Hi; try discriminate.
  - destruct (fetch_start q (cstate c)) as [s' [[]| |]] eqn:E; intros; simplify_eq.
    by constructor.
  - destruct (fetch_resume data q (cstate c)) as [s' r] eqn:E. intros; simplify_eq.
    by constructor.
  - intros; simplify_eq. by constructor.
Qed.

Lemma step_task_complete data q c c' : cstep data q c c' -> exists i, step_task data q i c = Some c'.
Proof.
  destruct 1 as [c i s' Hi E|c i s' r Hi E|c i r Hi]; exists i; unfold step_task; rewrite Hi;
    [rewrite E|rewrite E|]; done.
Qed.

Lemma run_schedule_nsteps data q sched : forall c c',
  run_schedule data q sched c = Some c' -> nsteps (cstep data q) (length sched) c c'.
Proof.
  induction sched as [|i sched IH]; intros c c' H; simpl in H; [simplify_eq; constructor|].
  destruct (step_task data q i c) as [c1|] eqn:E; [|discriminate].
  econstructor; [exact (step_task_sound _ _ _ _ _ E)|by apply IH].
Qed.

Lemma run_schedule_sound data q sched c c' :
  run_schedule data q sched c = Some c' -> rtc (cstep data q) c c'.
Proof. intros H. eapply rtc_nsteps_2, run_schedule_nsteps, H. Qed.

(** ** Bookkeeping along a step *)

Lemma cstep_length data q c c' : cstep data q c c' -> length (tasks c') = length (tasks c).
Proof. destruct 1; simpl; apply length_insert. Qed.

(** A step adds a fetch execution exactly when it starts a task. *)
Lemma cstep_fetch_count data q c c' :
  cstep data q c c' ->
  fetch_count (trace (cstate c')) + started (tasks c) =
  fetch_count (trace (cstate c)) + started (tasks c').
Proof.
  unfold started. destruct 1 as [c i s' Hi E|c i s' r Hi E|c i r Hi]; simpl;
    [pose proof (sum_list_with_insert is_started _ _ _ Fetching Hi) as Hs
    |pose proof (sum_list_with_insert is_started _ _ _ (Settled r) Hi) as Hs
    |pose proof (sum_list_with_insert is_started _ _ _ (Delivered r) Hi) as Hs]; simpl in Hs.
  - rewrite fetch_start_run in E. injection E as <-. simpl.
    rewrite fetch_count_app. unfold fetch_count at 2. simpl. lia.
  - rewrite (quiet_fetch_resume _ _ _ _ _ E). lia.
  - lia.
Qed.

Lemma started_delivered ts : all_delivered ts = true -> started ts = length ts.
Proof.
  unfold started. induction ts as [|[] ts IH]; simpl; try done. intros H. rewrite IH; [lia|done].
Qed.

Lemma started_init n s : started (tasks (init n s)) = 0.
Proof. unfold started. simpl. induction n as [|n IH]; simpl; lia. Qed.

(** ** Theorems *)

(** C10: whatever the interleaving of [n] concurrent [await]s of one
    query, every reachable configuration has run [fetch] exactly once
    per task whose [then] job has run, and once all [n] callers have
    resumed, [fetch] has run [n] times: concurrent awaits do not
    coalesce onto one execution, as section 5 of the specification
    requires. *)
Theorem interleaving_fetch_count data q n s c :
  rtc (cstep data q) (init n s) c ->
  length (tasks c) = n /\
  fetch_count (trace (cstate c)) = fetch_count (trace s) + started (tasks c) /\
  (all_delivered (tasks c) = true -> fetch_count (trace (cstate c)) = fetch_count (trace s) + n).
Proof.
  intros H.
  cut (length (tasks c) = n /\
       fetch_count (trace (cstate c)) = fetch_count (trace s) + started (tasks c)).
  { intros [Hl Hc]. do 2 (split; [done|]). intros Hd. by rewrite Hc, started_delivered, Hl. }
  refine (rtc_inv _ (fun c => length (tasks c) = n /\
                            fetch_count (trace (cstate c)) = fetch_count (trace s) + started (tasks c))
            _ _ _ _ H).
  - intros a b Hab [Hl Hc]. rewrite (cstep_length _ _ _ _ Hab).
    pose proof (cstep_fetch_count _ _ _ _ Hab). lia.
  - rewrite started_init. simpl. split; [apply repeat_length|lia].
Qed.

Lemma interleaving_fetch_count_witness :
  let q := mkQuery "db/fake/file.sql" (VObj 1) (SPlain undefined) in
  let c := default (init 2 (mkState [] [])) (run_schedule (VObj 0) q [0; 1; 0; 1; 0; 1]
                                                        (init 2 (mkState [] []))) in
  length (tasks c) = 2 /\
  fetch_count (trace (cstate c)) = 0 + started (tasks c) /\
  (all_delivered (tasks c) = true -> fetch_count (trace (cstate c)) = 0 + 2).
Proof.
  intros q c. apply (interleaving_fetch_count (VObj 0) q 2 (mkState [] [])).
  unfold c.
  apply (run_schedule_sound _ _ [0; 1; 0; 1; 0; 1]). vm_compute. reflexivity.
Defined.

(** ** Results of concurrent [UserSchema] queries *)

Lemma lookup_outcome_insert ts i p' j :
  i < length ts ->
  (<[i := p']> ts !! j ≫= outcome) = if decide (i = j) then outcome p' else ts !! j ≫= outcome.
Proof.
  intros Hi. case_decide as Hij.
  - subst. by rewrite list_lookup_insert_eq.
  - by rewrite list_lookup_insert_ne.
Qed.

Lemma outcome_init n i : (repeat Waiting n !! i ≫= outcome) = None.
Proof. revert i. induction n as [|n IH]; intros [|i]; simpl; auto. Qed.

(** The outcomes of the tasks are distinct objects of the heap, and the
    module's [data] stays where it is. *)
Definition distinct_outcomes (c : config) : Prop :=
  heap (cstate c) !! 0 = Some data_object /\
  (forall i r, (tasks c !! i ≫= outcome) = Some r ->
               exists l, r = ROk (VObj l) /\ l < length (heap (cstate c))) /\
  (forall i j l, (tasks c !! i ≫= outcome) = Some (ROk (VObj l)) ->
                 (tasks c !! j ≫= outcome) = Some (ROk (VObj l)) -> i = j).

(** A step that does not change the outcomes nor the heap keeps them
    distinct. *)
Lemma distinct_outcomes_same c ts' s' :
  (forall j, (ts' !! j ≫= outcome) = (tasks c !! j ≫= outcome)) -> heap s' = heap (cstate c) ->
  distinct_outcomes c -> distinct_outcomes (mkConfig ts' s').
Proof.
  intros Hts Hh (H0 & Hr & Hd). unfold distinct_outcomes. simpl. rewrite Hh.
  split; [done|]. split.
  - intros i r. rewrite Hts. apply Hr.
  - intros i j l. rewrite !Hts. apply Hd.
Qed.

Lemma distinct_outcomes_step q c c' :
  qschema q = SZod UserSchema -> cstep (VObj 0) q c c' ->
  distinct_outcomes c -> distinct_outcomes c'.
Proof.
  intros Hq Hs Hinv. pose proof Hinv as (H0 & Hr & Hd).
  destruct Hs as [c i s' Hi E|c i s' r Hi E|c i r Hi].
  - apply (distinct_outcomes_same c); [|by rewrite fetch_start_run in E; injection E as <-|done].
    intros j. rewrite lookup_outcome_insert by (eapply lookup_lt_Some; eauto).
    case_decide; [subst; by rewrite Hi|done].
  - rewrite (fetch_resume_UserSchema _ _ Hq H0) in E. injection E as <- <-.
    pose proof (lookup_lt_Some _ _ _ Hi) as Hlt.
    unfold distinct_outcomes; simpl. rewrite length_app. simpl.
    split; [by apply lookup_app_l_Some|]. split.
    + intros j r'. rewrite lookup_outcome_insert by done. case_decide.
      * intros [= <-]. eexists. split; [done|lia].
      * intros Hj. destruct (Hr _ _ Hj) as (l & -> & Hl). eexists. split; [done|lia].
    + intros j1 j2 l. rewrite !lookup_outcome_insert by done.
      case_decide as E1; case_decide as E2; simpl; try congruence.
      * intros [= <-] Hj2. destruct (Hr _ _ Hj2) as (l' & [= <-] & Hl). lia.
      * intros Hj1 [= <-]. destruct (Hr _ _ Hj1) as (l' & [= <-] & Hl). lia.
      * apply Hd.
  - apply (distinct_outcomes_same c); [|done|done].
    intros j. rewrite lookup_outcome_insert by (eapply lookup_lt_Some; eauto).
    case_decide; [subst; by rewrite Hi|done].
Qed.

(** C11: concurrent awaits of [db.file(..).into(UserSchema)] do not observe
    the same resolved value (section 8 of the specification): whatever
    the interleaving, two different awaits that have both succeeded hold
    two different record objects, each parse having allocated its own. *)
Theorem interleaving_distinct_results q n s c i j vi vj :
  qschema q = SZod UserSchema -> heap s !! 0 = Some data_object ->
  rtc (cstep (VObj 0) q) (init n s) c ->
  (tasks c !! i ≫= outcome) = Some (ROk vi) -> (tasks c !! j ≫= outcome) = Some (ROk vj) ->
  i <> j -> vi <> vj.
Proof.
  intros Hq H0 Hrtc Hi Hj Hij ->.
  assert (Hinv : distinct_outcomes c).
  { refine (rtc_inv _ distinct_outcomes _ _ (fun a b => distinct_outcomes_step q a b Hq) _ Hrtc).
    split; [done|]. simpl. split; intros i' *; by rewrite outcome_init. }
  destruct Hinv as (_ & Hr & Hd).
  destruct (Hr _ _ Hi) as (l & [= ->] & _). exact (Hij (Hd _ _ _ Hi Hj)).
Qed.

Lemma interleaving_distinct_results_witness : VObj 3 <> VObj 5.
Proof.
  apply (interleaving_distinct_results (mkQuery "db/fake/file.sql" (VObj 1) (SZod UserSchema)) 2
           (mkState [data_object; mkObj CObject KOrdinary []] [])
           (default (init 2 (mkState [data_object; mkObj CObject KOrdinary []] []))
              (run_schedule (VObj 0) (mkQuery "db/fake/file.sql" (VObj 1) (SZod UserSchema))
                 [0; 1; 0; 1; 0; 1] (init 2 (mkState [data_object; mkObj CObject KOrdinary []] []))))
           0 1).
  - reflexivity.
  - reflexivity.
  - apply (run_schedule_sound _ _ [0; 1; 0; 1; 0; 1]). vm_compute. reflexivity.
  - vm_compute. reflexivity.
  - vm_compute. reflexivity.
  - lia.
Defined.
