(* ===== verification/Middleware.v ===== *)
(** * Middleware: module initialisation and the default export

    Models lines 41-45 (the constant [data], allocated when the module is
    loaded) and 94-101 (the default export) of
    [src/src/routes/_index/+middleware.ts].  The middleware builds
    [db.file('db/fake/file.sql').into(UserSchema)], awaits it, stores the
    result in [context.test], logs [result.super_secret_property ==
    false], sets [context.serializedGlobals.test = true] and returns
    [await next()].  The framework that calls it is not in the
    repository: [context] is any value and [next] any computation.
    [middleware_prefix] runs lines 96-98 on any ordinary context object;
    the two theorems continue from it at line 99, one for a context with
    an object [serializedGlobals] and one for a context without it. *)

From S2P Require Import Prelude JsValue Private Zod Query.
Local Open Scope string_scope.
Local Open Scope js_scope.

(** The heap right after the module is loaded: [data] is its first
    object. *)
Definition module_init : state := mkState [data_object] [].

(** The binding of [data]. *)
Definition data_ref : value := VObj 0.

(** [console.log(v)] for a primitive: one line with its string form. *)
Definition console_log (v : value) : M unit :=
  match v with
  | VPrim p => emit (ELog (to_string_prim p))
  | VObj _ => stuck
  end.

(** Lines 95-101: the default export. *)
Definition middleware (context : value) (next : M value) : M value :=
  q <- db_file "db/fake/file.sql" None ;;
  result <- await_query data_ref (into q (SZod UserSchema)) ;;
  set_prop context "test" result ;;
  secret <- get_prop result "super_secret_property" ;;
  s <- get_state ;;
  b <- of_option (loose_eq (heap s) secret (VPrim (PBool false))) ;;
  console_log (VPrim (PBool b)) ;;
  sg <- get_prop context "serializedGlobals" ;;
  set_prop sg "test" (VPrim (PBool true)) ;;
  next.

(** A request context as the framework passes it: an object whose
    [serializedGlobals] is an object. *)
Definition sample_context_heap : list obj :=
  [data_object;
   mkObj CObject KOrdinary [("serializedGlobals", VObj 2)];
   mkObj CObject KOrdinary []].

(** ** The middleware on any request *)

(** The lookups of the objects the middleware touches, in the heap after
    the query's allocations. *)
Lemma lookup_after_query (h : list obj) (l : loc) (o : obj) (os : list obj) :
  h !! l = Some o -> (h ++ os)%list !! l = Some o.
Proof. apply lookup_app_l_Some. Qed.

(** The heap after the query's allocations and [context.test = result]:
    the parameters [{}], the wrapper of [false] and the parsed record are
    appended, and the context's [test] is the record. *)
Definition heap_after_store (h : list obj) (c : loc) (ps : list (string * value)) : list obj :=
  <[c := mkObj CObject KOrdinary (set_prop_list ps "test" (VObj (S (S (length h)))))]>
    (h ++ [mkObj CObject KOrdinary []; mkObj (CPrivate CBoolean) (KBoolean false) [];
           user_record (VObj (S (length h)))])%list.

(** Lines 96-98 on any ordinary context object: the query is built,
    fetched once and parsed, its record is stored in [context.test] and
    [true] is logged; what is left to run is line 99 and the call of
    [next]. *)
Lemma middleware_prefix c ps s next :
  heap s !! 0 = Some data_object ->
  heap s !! c = Some (mkObj CObject KOrdinary ps) ->
  middleware (VObj c) next s =
    (sg <- get_prop (VObj c) "serializedGlobals" ;;
     set_prop sg "test" (VPrim (PBool true)) ;;
     next)
      (mkState (heap_after_store (heap s) c ps)
               (trace s ++ [EFetch "db/fake/file.sql" (VObj (length (heap s))); ELog "true"])%list).
Proof.
  intros H0 Hc. unfold middleware, heap_after_store.
  pose proof (lookup_lt_Some _ _ _ Hc).
  run_step ltac:(apply db_file_none_run).
  run_step ltac:(apply await_query_UserSchema; [done|by apply lookup_after_query]).
  unfold with_objs; cbn [heap trace]. rewrite <- app_assoc, length_app, Nat.add_1_r. cbn [app length].
  run_step ltac:(apply set_prop_ordinary; [by apply lookup_after_query|discriminate]).
  run_step ltac:(apply (get_prop_found _ _ (user_record (VObj (S (length (heap s))))));
    [cbn [heap]; rewrite list_lookup_insert_ne, lookup_app_r by lia;
     by replace (S (S (length (heap s))) - length (heap s)) with 2 by lia|reflexivity]).
  run_step ltac:(reflexivity).
  cbn [heap]. rewrite (loose_eq_obj _ _ (mkObj (CPrivate CBoolean) (KBoolean false) []) (PBool false));
    [|rewrite list_lookup_insert_ne, lookup_app_r by lia;
      by replace (S (length (heap s)) - length (heap s)) with 1 by lia|done|done].
  cbn [of_option loose_eq_prim]. rewrite bind_ret_l. unfold console_log.
  run_step ltac:(reflexivity).
  cbn [heap trace]. by rewrite <- app_assoc.
Qed.

(** The context object in [heap_after_store]. *)
Lemma heap_after_store_context h c ps :
  c < length h ->
  heap_after_store h c ps !! c =
    Some (mkObj CObject KOrdinary (set_prop_list ps "test" (VObj (S (S (length h)))))).
Proof. intros Hc. unfold heap_after_store. rewrite list_lookup_insert_eq; [done|]. rewrite length_app; lia. Qed.

(** C9: the default export on any request whose context is an ordinary
    object with an ordinary [serializedGlobals] object: it allocates the
    default parameters [{}] of [db.file], runs [fetch] once for
    [db/fake/file.sql] with them, allocates the wrapper and the parsed
    record, stores the record in [context.test], logs [true], sets
    [serializedGlobals.test = true], and hands the resulting state to
    [next]; nothing else of the heap changes. *)
Theorem middleware_run c ps g gs s next :
  heap s !! 0 = Some data_object ->
  heap s !! c = Some (mkObj CObject KOrdinary ps) ->
  lookup_prop ps "serializedGlobals" = Some (VObj g) -> g <> c ->
  heap s !! g = Some (mkObj CObject KOrdinary gs) ->
  middleware (VObj c) next s =
    next (mkState
      (<[g := mkObj CObject KOrdinary (set_prop_list gs "test" (VPrim (PBool true)))]>
        (<[c := mkObj CObject KOrdinary (set_prop_list ps "test" (VObj (S (S (length (heap s))))))]>
          (heap s ++ [mkObj CObject KOrdinary []; mkObj (CPrivate CBoolean) (KBoolean false) [];
                      user_record (VObj (S (length (heap s))))])%list))
      (trace s ++ [EFetch "db/fake/file.sql" (VObj (length (heap s))); ELog "true"])%list).
Proof.
  intros H0 Hc Hsg Hgc Hg. rewrite (middleware_prefix c ps) by done.
  pose proof (lookup_lt_Some _ _ _ Hc). pose proof (lookup_lt_Some _ _ _ Hg).
  run_step ltac:(eapply get_prop_found;
    [cbn [heap]; by apply heap_after_store_context
    |cbn [o_props]; rewrite lookup_set_prop_list_ne by discriminate; exact Hsg]).
  run_step ltac:(apply set_prop_ordinary;
    [cbn [heap]; unfold heap_after_store; rewrite list_lookup_insert_ne by done;
     by apply lookup_after_query|discriminate]).
  done.
Qed.

Lemma middleware_run_witness :
  middleware (VObj 1) (ret undefined) (mkState sample_context_heap []) =
    ret undefined (mkState
      (<[2 := mkObj CObject KOrdinary (set_prop_list [] "test" (VPrim (PBool true)))]>
        (<[1 := mkObj CObject KOrdinary (set_prop_list [("serializedGlobals", VObj 2)] "test" (VObj 5))]>
          (sample_context_heap ++ [mkObj CObject KOrdinary []; mkObj (CPrivate CBoolean) (KBoolean false) [];
                                   user_record (VObj 4)])%list))
      ([] ++ [EFetch "db/fake/file.sql" (VObj 3); ELog "true"])%list).
Proof.
  apply (middleware_run 1 [("serializedGlobals", VObj 2)] 2 [] (mkState sample_context_heap [])).
  - reflexivity.
  - reflexivity.
  - reflexivity.
  - lia.
  - reflexivity.
Defined.

(** C28: ordering of the effects on any request whose context is an
    ordinary object without [serializedGlobals]: line 99 throws the
    [TypeError] of [undefined.test = true] after the query has been
    fetched once, the record stored in [context.test] and [true] logged;
    those effects remain in the final state, and [next] is never called. *)
Theorem middleware_missing_globals c ps s next :
  heap s !! 0 = Some data_object ->
  heap s !! c = Some (mkObj CObject KOrdinary ps) ->
  lookup_prop ps "serializedGlobals" = None ->
  middleware (VObj c) next s =
    (mkState (heap_after_store (heap s) c ps)
             (trace s ++ [EFetch "db/fake/file.sql" (VObj (length (heap s))); ELog "true"])%list,
     RThrow (TypeError "Cannot set properties of undefined (setting 'test')")).
Proof.
  intros H0 Hc Hsg. rewrite (middleware_prefix c ps) by done.
  pose proof (lookup_lt_Some _ _ _ Hc).
  run_step ltac:(eapply get_prop_missing;
    [cbn [heap]; by apply heap_after_store_context
    |cbn [o_props]; rewrite lookup_set_prop_list_ne by discriminate; exact Hsg
    |by_decide]).
  reflexivity.
Qed.

Lemma middleware_missing_globals_witness :
  middleware (VObj 1) (ret undefined) (mkState [data_object; mkObj CObject KOrdinary []] []) =
    (mkState (heap_after_store [data_object; mkObj CObject KOrdinary []] 1 [])
             ([] ++ [EFetch "db/fake/file.sql" (VObj 2); ELog "true"])%list,
     RThrow (TypeError "Cannot set properties of undefined (setting 'test')")).
Proof.
  apply (middleware_missing_globals 1 [] (mkState [data_object; mkObj CObject KOrdinary []] [])).
  - reflexivity.
  - reflexivity.
  - reflexivity.
Defined.
